(** * Conscious-memory MCP server: tool handlers, entity extraction and
      knowledge-graph synchronisation

    A shallow embedding of

    - the tool handlers [save_memory], [search_memories], [delete_memory],
      [update_memory], [get_memory_stats] and [query_knowledge_graph] of
      the MCP server entry point,
    - [SimpleLLMService.extractKnowledge] (lib/simple-llm-service.ts),
    - [SimpleSyncService.syncKnowledgeGraph] (lib/simple-sync-service.ts),
    - [runSync] and [main] of the command-line runner of the sync,

    followed by the properties the specification states about them, and by
    further properties of the handlers, the cleaning of completions, the
    failures of a sync run, the runner and the rewriting of graph queries.

    Conventions.  A JavaScript [number] is idealised as a rational ([Q]); the
    schema of every numeric tool argument (zod's [z.number()]) excludes NaN
    and the infinities.  Page numbers and page sizes are natural numbers.
    Strings are sequences of ASCII code units.  Values read from parsed JSON
    have the shape their TypeScript interface declares.  A computation that
    may throw returns an [outcome]; [await] is sequencing. *)

From Stdlib Require Import Lqa ZArith QArith Qround String Ascii List Lia.
From Stdlib Require Import DecimalString.
From stdpp Require Import gmap strings list fin_maps sorting.

Import ListNotations.
Local Open Scope string_scope.

(** ** Part I.  The embedding *)

(** *** JavaScript primitives used by the sources *)

Module JS.

(** The result of evaluating an expression or awaiting a promise: a value,
    or an exception carrying its [message]. *)
Inductive outcome (A : Type) : Type :=
| Returned (a : A)
| Thrown (message : string).
Arguments Returned {A} a.
Arguments Thrown {A} message.

Definition bind {A B} (m : outcome A) (k : A -> outcome B) : outcome B :=
  match m with
  | Returned a => k a
  | Thrown e => Thrown e
  end.

(** [try { body } catch (error) { handler }] *)
Definition try_catch {A} (body : outcome A) (handler : string -> outcome A)
  : outcome A :=
  match body with
  | Returned a => Returned a
  | Thrown e => handler e
  end.

Definition Qlt_bool (a b : Q) : bool := negb (Qle_bool b a).

(** [x || d] for an optional number: [undefined] and [0] are falsy. *)
Definition or_number (x : option Q) (d : Q) : Q :=
  match x with
  | Some v => if Qeq_bool v 0 then d else v
  | None => d
  end.

(** [x || d] for an optional count. *)
Definition or_nat (x : option nat) (d : nat) : nat :=
  match x with
  | Some (S n) => S n
  | _ => d
  end.

(** [x || d] for an optional integer (a timestamp). *)
Definition or_Z (x : option Z) (d : Z) : Z :=
  match x with
  | Some v => if Z.eqb v 0 then d else v
  | None => d
  end.

(** [x || d] for an optional array or object: those are always truthy. *)
Definition or_object {A} (x : option A) (d : A) : A :=
  match x with
  | Some v => v
  | None => d
  end.

Definition Math_floor (x : Q) : Q := inject_Z (Qfloor x).
Definition Math_max (a b : Q) : Q := if Qle_bool a b then b else a.
(** [Math.round] rounds to the nearest integer, halves upwards. *)
Definition Math_round (x : Q) : Q := inject_Z (Qfloor (x + (1 # 2))).
(** [Math.ceil (a / b)] for counts [a] and [b]. *)
Definition Math_ceil_div (a b : nat) : nat :=
  match b with
  | O => O
  | S _ => (a + b - 1) / b
  end.

(** [arr.slice(start, end)] for [0 <= start <= end]. *)
Definition slice {A} (start stop : nat) (arr : list A) : list A :=
  firstn (stop - start) (skipn start arr).

(** [s.slice(0, n)] on a string. *)
Definition string_slice0 (n : nat) (s : string) : string := substring 0 n s.

(** White space removed by [String.prototype.trim] (the ASCII part of it:
    TAB, LF, VT, FF, CR and SPACE). *)
Definition is_space (c : ascii) : bool :=
  let n := nat_of_ascii c in
  ((9 <=? n)%nat && (n <=? 13)%nat) || (n =? 32)%nat.

Fixpoint trimStart (s : string) : string :=
  match s with
  | String c rest => if is_space c then trimStart rest else s
  | EmptyString => EmptyString
  end.

(** [trimEnd] keeps a character when it is not a space or when something
    remains after it. *)
Fixpoint trimEnd (s : string) : string :=
  match s with
  | String c rest =>
      match trimEnd rest with
      | EmptyString => if is_space c then EmptyString else String c EmptyString
      | kept => String c kept
      end
  | EmptyString => EmptyString
  end.

Definition trim (s : string) : string := trimEnd (trimStart s).

End JS.

Import JS.

(** [const x = await m; k] *)
Notation "'let!' x ':=' m 'in' k" := (JS.bind m (fun x => k))
  (at level 10, x pattern, m at level 100, k at level 200).

(** *** The MCP server: tool handlers *)

Module McpServer.

(** What a tool handler returns: [{ content: [{ type: "text", text:
    JSON.stringify(result) }], isError }].  [tr_result] is the object that
    is serialised; an absent [isError] is [false]. *)
Record ToolResponse (R : Type) : Type := mkToolResponse {
  tr_result : R;
  tr_isError : bool
}.
Arguments mkToolResponse {R} _ _.
Arguments tr_result {R} _.
Arguments tr_isError {R} _.

(** [{ success: false, error, details }] *)
Record ErrorResult : Type := mkErrorResult {
  er_error : string;
  er_details : option string
}.

(** **** save_memory *)

Record SaveMemoryArgs : Type := mkSaveMemoryArgs {
  sa_content : string;
  sa_tags : option (list string);
  sa_importance : option Q;
  sa_context : option string;
  sa_sessionId : option string
}.

(** [importance: z.number().min(0).max(10).optional()] *)
Definition importance_schema (importance : option Q) : bool :=
  match importance with
  | Some v => Qle_bool 0 v && Qle_bool v 10
  | None => true
  end.

(** The argument of [memoryService.saveMemory]. *)
Record SaveMemoryRequest : Type := mkSaveMemoryRequest {
  sm_content : string;
  sm_tags : list string;
  sm_importance : Q;
  sm_source : string;
  sm_context : option string;
  sm_sessionId : option string
}.

Record SaveSummary : Type := mkSaveSummary {
  ss_content : string;
  ss_tags : list string;
  ss_importance : Q
}.

Inductive SaveResult : Type :=
| SaveSuccess (id : string) (message : string) (summary : SaveSummary)
| SaveFailure (e : ErrorResult).

(** [let safeImportance = importance || 5;
     if (safeImportance > 0 && safeImportance < 1)
       safeImportance = Math.max(1, Math.floor(10 * safeImportance));] *)
Definition safeImportance (importance : option Q) : Q :=
  let safeImportance := or_number importance 5 in
  if Qlt_bool 0 safeImportance && Qlt_bool safeImportance 1
  then Math_max 1 (Math_floor (10 * safeImportance))
  else safeImportance.

Definition save_request (a : SaveMemoryArgs) : SaveMemoryRequest :=
  {| sm_content := sa_content a;
     sm_tags := or_object (sa_tags a) [];
     sm_importance := safeImportance (sa_importance a);
     sm_source := "explicit";
     sm_context := sa_context a;
     sm_sessionId := sa_sessionId a |}.

Section SaveMemory.
(** [memoryService.saveMemory], of lib/conscious-memory.ts: it stores the
    request and resolves to the id it assigned, or rejects. *)
Variable saveMemory : SaveMemoryRequest -> outcome string.

Definition save_memory (a : SaveMemoryArgs) : ToolResponse SaveResult :=
  let content := sa_content a in
  match saveMemory (save_request a) with
  | Returned id =>
      mkToolResponse
        (SaveSuccess id
           ("Memory saved successfully with ID: " ++ id)
           {| ss_content :=
                string_slice0 100 content ++
                (if (100 <? String.length content)%nat then "..."
                 else EmptyString);
              ss_tags := or_object (sa_tags a) [];
              ss_importance := safeImportance (sa_importance a) |})
        false
  | Thrown message =>
      mkToolResponse
        (SaveFailure
           {| er_error := "Failed to save memory to conscious storage";
              er_details := Some message |})
        true
  end.
End SaveMemory.

(** **** The memory service behind the handlers *)

(** A Memory as the service keeps it (specification, data model). *)
Record StoredMemory : Type := mkStoredMemory {
  mem_id : string;
  mem_text : string;
  mem_tags : list string;
  mem_importance : Q;
  mem_sessionId : option string;
  mem_context : option string;
  mem_source : string;
  mem_timestamp : Z
}.

(** An element of the array [memoryService.searchMemories] resolves to. *)
Record MemorySearchResult : Type := mkMemorySearchResult {
  r_id : string;
  r_text : string;
  r_tags : list string;
  r_importance : Q;
  r_score : Q;
  r_context : option string;
  r_source : string;
  r_timestamp : Z
}.

(** The options object of [memoryService.searchMemories]. *)
Record SearchOptions : Type := mkSearchOptions {
  so_tags : option (list string);
  so_importanceMin : option Q;
  so_importanceMax : option Q;
  so_limit : nat;
  so_minScore : Q;
  so_sessionId : option string
}.

(** The structural filters among the options. *)
Record Filters : Type := mkFilters {
  f_tags : option (list string);
  f_importanceMin : option Q;
  f_importanceMax : option Q;
  f_sessionId : option string
}.

Definition filters_of (options : SearchOptions) : Filters :=
  {| f_tags := so_tags options;
     f_importanceMin := so_importanceMin options;
     f_importanceMax := so_importanceMax options;
     f_sessionId := so_sessionId options |}.

(** Ranking order: higher score first; ties by higher importance, then by
    the later timestamp. *)
Definition ranks_before (a b : MemorySearchResult) : bool :=
  Qlt_bool (r_score b) (r_score a) ||
  (Qeq_bool (r_score a) (r_score b) &&
   (Qlt_bool (r_importance b) (r_importance a) ||
    (Qeq_bool (r_importance a) (r_importance b) &&
     (r_timestamp b <=? r_timestamp a)%Z))).

Definition RanksBefore (a b : MemorySearchResult) : Prop :=
  Is_true (ranks_before a b).

#[export] Instance RanksBefore_dec : RelDecision RanksBefore :=
  fun a b => Is_true_dec (ranks_before a b).

Section HybridSearch.
(** The two collaborators of the search that stay abstract: the candidate
    fetch of the repository, restricted by the structural filters (it
    fails when the store is unreachable), and the combined semantic and
    keyword score of a candidate for a query. *)
Variable fetchCandidates : Filters -> outcome (list StoredMemory).
Variable finalScore : string -> StoredMemory -> Q.

Definition scored (query : string) (m : StoredMemory) : MemorySearchResult :=
  {| r_id := mem_id m; r_text := mem_text m; r_tags := mem_tags m;
     r_importance := mem_importance m; r_score := finalScore query m;
     r_context := mem_context m; r_source := mem_source m;
     r_timestamp := mem_timestamp m |}.

(** Modelled from the spec: the ranked and filtered result sequence of
    HybridSearchEngine.search (lib/conscious-memory.ts is not among the
    sources), steps 2 to 7: score every fetched candidate, drop those
    with [finalScore < minScore], sort by descending score with ties
    broken by importance, then timestamp. *)
Definition rankedResults (query : string) (options : SearchOptions)
  : outcome (list MemorySearchResult) :=
  let! candidates := fetchCandidates (filters_of options) in
  Returned
    (merge_sort RanksBefore
       (filter (fun r => Is_true (Qle_bool (so_minScore options) (r_score r)))
          (map (scored query) candidates))).

(** Modelled from the spec: memoryService.searchMemories, absent from the
    sources.  An empty query without tags and session is rejected; the
    result is the ranked, filtered sequence, of which at most [limit]
    leading elements are returned. *)
Definition searchMemories (query : string) (options : SearchOptions)
  : outcome (list MemorySearchResult) :=
  match query, so_tags options, so_sessionId options with
  | EmptyString, None, None =>
      Thrown "ValidationError: supply at least one of query, tags, session"
  | _, _, _ =>
      let! ranked := rankedResults query options in
      Returned (firstn (so_limit options) ranked)
  end.
End HybridSearch.

(** **** search_memories *)

Record SearchArgs : Type := mkSearchArgs {
  q_query : string;
  q_tags : option (list string);
  q_importance_min : option Q;
  q_importance_max : option Q;
  q_limit : option nat;
  q_page : option nat;
  q_minScore : option Q;
  q_sessionId : option string
}.

Definition in_range (lo hi : Q) (x : option Q) : bool :=
  match x with
  | Some v => Qle_bool lo v && Qle_bool v hi
  | None => true
  end.

(** The zod schema of the tool: [limit] in 1..50, [page] at least 1,
    [minScore] in 0..1, the importance bounds in 1..10. *)
Definition search_schema (a : SearchArgs) : bool :=
  in_range 1 10 (q_importance_min a) && in_range 1 10 (q_importance_max a) &&
  match q_limit a with Some n => (1 <=? n)%nat && (n <=? 50)%nat | None => true end &&
  match q_page a with Some n => (1 <=? n)%nat | None => true end &&
  in_range 0 1 (q_minScore a).

Record Pagination : Type := mkPagination {
  pg_page : nat;
  pg_pageSize : nat;
  pg_totalPages : nat;
  pg_hasNext : bool;
  pg_hasPrevious : bool
}.

(** One entry of the [memories] array of the response. *)
Record MemoryEntry : Type := mkMemoryEntry {
  e_id : string;
  e_content : string;
  e_tags : list string;
  e_importance : Q;
  e_score : Q;
  e_context : option string;
  e_source : string
}.

Record SearchSummary : Type := mkSearchSummary {
  sr_query : string;
  sr_found : nat;
  sr_totalResults : nat;
  sr_pagination : Pagination;
  sr_memories : list MemoryEntry
}.

Inductive SearchResult : Type :=
| SearchSuccess (s : SearchSummary)
| SearchFailure (e : ErrorResult).

(** [score: Math.round(result.score * 100) / 100] *)
Definition reported_score (score : Q) : Q := Math_round (score * 100) / 100.

Definition memory_entry (result : MemorySearchResult) : MemoryEntry :=
  {| e_id := r_id result; e_content := r_text result;
     e_tags := r_tags result; e_importance := r_importance result;
     e_score := reported_score (r_score result);
     e_context := r_context result; e_source := r_source result |}.

(** [minScore: minScore || 0.15] *)
Definition effective_minScore (minScore : option Q) : Q :=
  or_number minScore (15 # 100).

Definition search_options (a : SearchArgs) : SearchOptions :=
  let pageSize := or_nat (q_limit a) 10 in
  let currentPage := or_nat (q_page a) 1 in
  let offset := (currentPage - 1) * pageSize in
  {| so_tags := q_tags a;
     so_importanceMin := q_importance_min a;
     so_importanceMax := q_importance_max a;
     so_limit := offset + pageSize * 2;
     so_minScore := effective_minScore (q_minScore a);
     so_sessionId := q_sessionId a |}.

Section SearchMemories.
Variable fetchCandidates : Filters -> outcome (list StoredMemory).
Variable finalScore : string -> StoredMemory -> Q.

Definition search_memories (a : SearchArgs) : ToolResponse SearchResult :=
  let pageSize := or_nat (q_limit a) 10 in
  let currentPage := or_nat (q_page a) 1 in
  let offset := (currentPage - 1) * pageSize in
  match searchMemories fetchCandidates finalScore (q_query a)
          (search_options a) with
  | Returned allResults =>
      let paginatedResults := slice offset (offset + pageSize) allResults in
      let totalResults := length allResults in
      let totalPages := Math_ceil_div totalResults pageSize in
      mkToolResponse
        (SearchSuccess
           {| sr_query := q_query a;
              sr_found := length paginatedResults;
              sr_totalResults := totalResults;
              sr_pagination :=
                {| pg_page := currentPage;
                   pg_pageSize := pageSize;
                   pg_totalPages := totalPages;
                   pg_hasNext := (currentPage <? totalPages)%nat;
                   pg_hasPrevious := (1 <? currentPage)%nat |};
              sr_memories := map memory_entry paginatedResults |})
        false
  | Thrown message =>
      mkToolResponse
        (SearchFailure
           {| er_error := "Failed to search conscious memories";
              er_details := Some message |})
        true
  end.

(** The [memories] of a response; an error response lists none. *)
Definition response_memories (r : ToolResponse SearchResult)
  : list MemoryEntry :=
  match tr_result r with
  | SearchSuccess s => sr_memories s
  | SearchFailure _ => []
  end.
End SearchMemories.

(** The query is accepted by the search: it is not empty, or tags or a
    session are given. *)
Definition accepted (a : SearchArgs) : Prop :=
  q_query a <> EmptyString \/ q_tags a <> None \/ q_sessionId a <> None.

(** The same call for another page. *)
Definition on_page (a : SearchArgs) (p : nat) : SearchArgs :=
  {| q_query := q_query a; q_tags := q_tags a;
     q_importance_min := q_importance_min a;
     q_importance_max := q_importance_max a;
     q_limit := q_limit a; q_page := Some p;
     q_minScore := q_minScore a; q_sessionId := q_sessionId a |}.

(** **** delete_memory *)

(** Modelled from the spec: the MemoryRepository behind
    memoryService.deleteMemory (lib/conscious-memory.ts and
    lib/memory-store.ts are not among the sources): the vector-store
    records by id, the ids that have a derived graph projection, and
    whether the store can be reached. *)
Record MemoryRepository : Type := mkMemoryRepository {
  repo_records : gmap string StoredMemory;
  repo_projection : gset string;
  repo_reachable : bool
}.

(** Modelled from the spec: [delete(id)] removes the vector-store record
    and, in cascade, the derived graph projection; it returns [false],
    without failing, when the id is already absent.  An unreachable store
    is a connectivity error. *)
Definition deleteMemory (id : string) (repo : MemoryRepository)
  : outcome bool * MemoryRepository :=
  if repo_reachable repo then
    match repo_records repo !! id with
    | Some _ =>
        (Returned true,
         {| repo_records := delete id (repo_records repo);
            repo_projection := repo_projection repo ∖ {[ id ]};
            repo_reachable := true |})
    | None => (Returned false, repo)
    end
  else (Thrown "StoreConnectivityError", repo).

Inductive DeleteResult : Type :=
| DeleteSuccess (id : string) (message : string)
| DeleteNotFound (error : string)
| DeleteFailure (e : ErrorResult).

Definition delete_memory (id : string) (repo : MemoryRepository)
  : ToolResponse DeleteResult * MemoryRepository :=
  match deleteMemory id repo with
  | (Returned success, repo') =>
      (mkToolResponse
         (if success
          then DeleteSuccess id ("Memory " ++ id ++ " deleted successfully")
          else DeleteNotFound
                 ("Memory " ++ id ++ " not found or could not be deleted"))
         (negb success),
       repo')
  | (Thrown message, repo') =>
      (mkToolResponse
         (DeleteFailure
            {| er_error := "Failed to delete conscious memory";
               er_details := Some message |})
         true,
       repo')
  end.

End McpServer.

(** *** lib/simple-llm-service.ts: entity extraction *)

Module LlmService.

(** A value of a [Record<string, any>] property bag. *)
Inductive PropValue : Type :=
| PString (s : string)
| PNumber (n : Z).

Definition Properties : Type := list (string * PropValue).

Record ExtractedEntity : Type := mkExtractedEntity {
  ent_id : string;
  ent_label : string;
  ent_properties : Properties
}.

Record ExtractedRelationship : Type := mkExtractedRelationship {
  rel_sourceEntityId : string;
  rel_targetEntityId : string;
  rel_type : string;
  rel_properties : option Properties
}.

Record KnowledgeExtractionResult : Type := mkKnowledgeExtractionResult {
  entities : list ExtractedEntity;
  relationships : list ExtractedRelationship
}.

Definition emptyExtraction : KnowledgeExtractionResult :=
  {| entities := []; relationships := [] |}.

(** What [JSON.parse] produced, as far as [extractKnowledge] looks at it:
    [null], on which reading a property throws a TypeError, or any other
    value with its [entities] and [relationships] properties.  A property
    is [None] when it is missing or falsy; a truthy one has the shape the
    interface [KnowledgeExtractionResult] declares. *)
Inductive ParsedJson : Type :=
| JsonNull
| JsonValue (entities : option (list ExtractedEntity))
            (relationships : option (list ExtractedRelationship)).

Definition backtick : ascii := "096"%char.
Definition newline : ascii := "010"%char.
Definition dquote : string := String "034"%char EmptyString.
Definition quoted (s : string) : string := dquote ++ s ++ dquote.

Fixpoint unlines (ls : list string) : string :=
  match ls with
  | [] => EmptyString
  | [l] => l
  | l :: rest => l ++ String newline (unlines rest)
  end.

Definition prompt (content : string) : string :=
  unlines
    [ "Extract entities and relationships from the following text. Focus on:";
      "- People, organizations, technologies, concepts, projects";
      "- Actions, relationships, and connections between entities";
      EmptyString;
      "Text: " ++ quoted content;
      EmptyString;
      "Return ONLY valid JSON in this exact format:";
      "{";
      "  " ++ quoted "entities" ++ ": [";
      "    {" ++ quoted "id" ++ ": " ++ quoted "unique_id" ++ ", " ++
        quoted "label" ++ ": " ++
        quoted "Person|Technology|Concept|Organization" ++ ", " ++
        quoted "properties" ++ ": {" ++ quoted "name" ++ ": " ++
        quoted "..." ++ ", " ++ quoted "description" ++ ": " ++
        quoted "..." ++ "}}";
      "  ],";
      "  " ++ quoted "relationships" ++ ": [";
      "    {" ++ quoted "sourceEntityId" ++ ": " ++ quoted "entity1_id" ++
        ", " ++ quoted "targetEntityId" ++ ": " ++ quoted "entity2_id" ++
        ", " ++ quoted "type" ++ ": " ++ quoted "WORKS_ON|USES|RELATES_TO" ++
        ", " ++ quoted "properties" ++ ": {}}";
      "  ]";
      "}" ].

Definition is_backtick (c : ascii) : bool := Ascii.eqb c backtick.

(** The seven characters matched by the head of [/```json\n?/]. *)
Definition is_json_fence (a b c d e f g : ascii) : bool :=
  is_backtick a && is_backtick b && is_backtick c &&
  Ascii.eqb d "j" && Ascii.eqb e "s" && Ascii.eqb f "o" && Ascii.eqb g "n".

(** [s.replace(/```json\n?/g, '')]: every match, found from left to right
    in the input, is removed together with the line feed that follows it. *)
Fixpoint remove_json_fences (s : string) : string :=
  match s with
  | String a
      ((String b (String c (String d (String e (String f (String g rest))))))
       as tl) =>
      if is_json_fence a b c d e f g then
        match rest with
        | String n rest' =>
            if Ascii.eqb n newline then remove_json_fences rest'
            else remove_json_fences rest
        | EmptyString => EmptyString
        end
      else String a (remove_json_fences tl)
  | String a tl => String a (remove_json_fences tl)
  | EmptyString => EmptyString
  end.

(** [s.replace(/```\n?/g, '')] *)
Fixpoint remove_fences (s : string) : string :=
  match s with
  | String a ((String b (String c rest)) as tl) =>
      if is_backtick a && is_backtick b && is_backtick c then
        match rest with
        | String n rest' =>
            if Ascii.eqb n newline then remove_fences rest'
            else remove_fences rest
        | EmptyString => EmptyString
        end
      else String a (remove_fences tl)
  | String a tl => String a (remove_fences tl)
  | EmptyString => EmptyString
  end.

(** [text.trim().replace(/```json\n?/g, '').replace(/```\n?/g, '').trim()] *)
Definition cleaned (text : string) : string :=
  trim (remove_fences (remove_json_fences (trim text))).

(** An occurrence of three backticks in a row. *)
Fixpoint has_fence (s : string) : bool :=
  match s with
  | String a ((String b (String c _)) as tl) =>
      (is_backtick a && is_backtick b && is_backtick c) || has_fence tl
  | String _ tl => has_fence tl
  | EmptyString => false
  end.

Fixpoint no_backtick (s : string) : bool :=
  match s with
  | String a tl => negb (is_backtick a) && no_backtick tl
  | EmptyString => true
  end.

(** The completion [```json], line feed, [body], line feed, [```]. *)
Definition fenced (body : string) : string :=
  String backtick (String backtick (String backtick "json")) ++
  String newline body ++
  String newline (String backtick (String backtick (String backtick EmptyString))).

(** [s] starts with two backticks. *)
Definition starts_2 (s : string) : bool :=
  match s with
  | String a (String b _) => is_backtick a && is_backtick b
  | _ => false
  end.

Definition starts_1 (s : string) : bool :=
  match s with
  | String a _ => is_backtick a
  | _ => false
  end.

Definition fence_open : string :=
  String backtick (String backtick (String backtick "json")) ++
  String newline EmptyString.
Definition fence_close : string :=
  String newline
    (String backtick (String backtick (String backtick EmptyString))).

Section ExtractKnowledge.
(** [generateText({ model, prompt, temperature: 0.1 })] of the ai SDK,
    resolving to the [text] of the completion or rejecting, and
    [JSON.parse], which throws a SyntaxError on malformed input. *)
Variable generateText : string -> outcome string.
Variable JSON_parse : string -> outcome ParsedJson.

(** [result.entities] and [result.relationships], each with [|| []]. *)
Definition read_result (result : ParsedJson)
  : outcome KnowledgeExtractionResult :=
  match result with
  | JsonNull =>
      Thrown "TypeError: Cannot read properties of null"
  | JsonValue ents rels =>
      Returned {| entities := or_object ents [];
                  relationships := or_object rels [] |}
  end.

Definition extractKnowledge (content : string)
  : outcome KnowledgeExtractionResult :=
  let prompt := prompt content in
  try_catch
    (let! text := generateText prompt in
     let cleaned := cleaned text in
     let! result := JSON_parse cleaned in
     read_result result)
    (fun error => Returned emptyExtraction).
End ExtractKnowledge.

End LlmService.

(** *** lib/simple-sync-service.ts: knowledge-graph synchronisation *)

Module SyncService.
Import LlmService.

(** [memory.metadata]: the sync reads [timestamp]; [tags] is carried by the
    stored metadata as well. *)
Record MemoryMetadata : Type := mkMemoryMetadata {
  md_timestamp : option Z;
  md_tags : list string
}.

(** An element of the array [memoryStore.retrieveMemories] resolves to. *)
Record Memory : Type := mkMemory {
  memory_id : string;
  memory_text : string;
  memory_metadata : MemoryMetadata
}.

Record KgNode : Type := mkKgNode {
  node_id : string;
  node_type : string;
  node_properties : Properties
}.

Record KgRelationship : Type := mkKgRelationship {
  krel_id : string;
  krel_sourceNodeId : string;
  krel_targetNodeId : string;
  krel_type : string;
  krel_properties : Properties
}.

Record SyncResult : Type := mkSyncResult {
  processed : nat;
  errors : nat;
  skipped : nat
}.

Record SyncOptions : Type := mkSyncOptions {
  forceFullResync : option bool
}.

(** A request sent to the graph service. *)
Inductive KgCall : Type :=
| AddNode (node : KgNode)
| AddRelationship (relationship : KgRelationship).

(** The key under which a request upserts: the id of a node, or the id of
    a relationship. *)
Inductive KgKey : Type :=
| NodeKey (id : string)
| RelationshipKey (id : string).

#[export] Instance KgKey_eq_dec : EqDecision KgKey.
Proof. solve_decision. Defined.

Definition call_key (c : KgCall) : KgKey :=
  match c with
  | AddNode node => NodeKey (node_id node)
  | AddRelationship relationship => RelationshipKey (krel_id relationship)
  end.

(** Modelled from the spec: the graph store behind kgService
    (lib/knowledge-graph-service.ts is not among the sources): nodes and
    relationships, each kept under its id. *)
Record KnowledgeGraph : Type := mkKnowledgeGraph {
  kg_nodes : gmap string KgNode;
  kg_relationships : gmap string KgRelationship
}.

(** Modelled from the spec: [addNode] and [addRelationship] upsert with
    merge semantics, under the id of the node or relationship: an absent
    id is created, a present one is updated in place, never duplicated. *)
Definition upsert (c : KgCall) (g : KnowledgeGraph) : KnowledgeGraph :=
  match c with
  | AddNode node =>
      {| kg_nodes := <[ node_id node := node ]> (kg_nodes g);
         kg_relationships := kg_relationships g |}
  | AddRelationship relationship =>
      {| kg_nodes := kg_nodes g;
         kg_relationships :=
           <[ krel_id relationship := relationship ]> (kg_relationships g) |}
  end.

(** What a sync run acts on: the graph store, the requests sent to it so
    far, the schedule of its failures (one entry per request still to
    come, [true] for a request that is going to fail; none left means no
    failure), the value of [Date.now()], and the [lastSyncTime] field of
    the service. *)
Record World : Type := mkWorld {
  w_graph : KnowledgeGraph;
  w_calls : list KgCall;
  w_faults : list bool;
  w_clock : Z;
  w_lastSyncTime : Z
}.

(** A computation that acts on the world and may throw; what was done
    before the exception stays done. *)
Definition Sync (A : Type) : Type := World -> outcome A * World.

Definition ret {A} (a : A) : Sync A := fun w => (Returned a, w).

Definition bindS {A B} (m : Sync A) (k : A -> Sync B) : Sync B :=
  fun w =>
    match m w with
    | (Returned a, w') => k a w'
    | (Thrown e, w') => (Thrown e, w')
    end.

Definition lift {A} (o : outcome A) : Sync A := fun w => (o, w).

Definition Date_now : Sync Z := fun w => (Returned (w_clock w), w).

(** Modelled from the spec: one request to the graph service.  It is
    recorded, then fails or upserts as the schedule says. *)
Definition kg_request (c : KgCall) : Sync unit :=
  fun w =>
    let fails := match w_faults w with f :: _ => f | [] => false end in
    let sent :=
      {| w_graph := w_graph w;
         w_calls := w_calls w ++ [c];
         w_faults := tail (w_faults w);
         w_clock := w_clock w;
         w_lastSyncTime := w_lastSyncTime w |} in
    if fails then (Thrown "graph store request failed", sent)
    else (Returned tt,
          {| w_graph := upsert c (w_graph sent);
             w_calls := w_calls sent;
             w_faults := w_faults sent;
             w_clock := w_clock sent;
             w_lastSyncTime := w_lastSyncTime sent |}).

Definition addNode (node : KgNode) : Sync unit := kg_request (AddNode node).
Definition addRelationship (relationship : KgRelationship) : Sync unit :=
  kg_request (AddRelationship relationship).

Notation "'do!' x ':=' m 'in' k" := (bindS m (fun x => k))
  (at level 10, x pattern, m at level 100, k at level 200).

(** [for (const item of items) { await body(item) }] *)
Fixpoint for_of {A} (items : list A) (body : A -> Sync unit) : Sync unit :=
  match items with
  | [] => ret tt
  | item :: rest => do! _ := body item in for_of rest body
  end.

(** [{ id: `Memory_${memory.id}`, type: 'Memory', properties: { memoryId,
    content, timestamp: memory.metadata.timestamp || Date.now() } }] *)
Definition memoryNodeOf (memory : Memory) (now : Z) : KgNode :=
  {| node_id := "Memory_" ++ memory_id memory;
     node_type := "Memory";
     node_properties :=
       [ ("memoryId", PString (memory_id memory));
         ("content", PString (memory_text memory));
         ("timestamp",
          PNumber (or_Z (md_timestamp (memory_metadata memory)) now)) ] |}.

Definition entityNodeOf (entity : ExtractedEntity) : KgNode :=
  {| node_id := ent_id entity;
     node_type := ent_label entity;
     node_properties := ent_properties entity |}.

(** [{ id: `rel-${memoryNode.id}-mentions-${entity.id}`, ..., type:
    'MENTIONS', properties: {} }] *)
Definition memToEntityOf (memoryNode : KgNode) (entity : ExtractedEntity)
  : KgRelationship :=
  {| krel_id := "rel-" ++ node_id memoryNode ++ "-mentions-" ++ ent_id entity;
     krel_sourceNodeId := node_id memoryNode;
     krel_targetNodeId := ent_id entity;
     krel_type := "MENTIONS";
     krel_properties := [] |}.

(** [{ id: `rel-${rel.sourceEntityId}-${rel.type}-${rel.targetEntityId}`,
    ..., properties: rel.properties || {} }] *)
Definition relationshipOf (rel : ExtractedRelationship) : KgRelationship :=
  {| krel_id :=
       "rel-" ++ rel_sourceEntityId rel ++ "-" ++ rel_type rel ++ "-" ++
       rel_targetEntityId rel;
     krel_sourceNodeId := rel_sourceEntityId rel;
     krel_targetNodeId := rel_targetEntityId rel;
     krel_type := rel_type rel;
     krel_properties := or_object (rel_properties rel) [] |}.

Section SyncKnowledgeGraph.
(** The collaborators of the service: the language model behind
    [llmService] and the memory store ([memoryStore.initialize] and
    [memoryStore.retrieveMemories(query, { limit })] of
    lib/memory-store.ts). *)
Variable generateText : string -> outcome string.
Variable JSON_parse : string -> outcome ParsedJson.
Variable initialize : outcome unit.
Variable retrieveMemories : string -> nat -> outcome (list Memory).

(** The body of the [try] block run for one memory. *)
Definition processMemory (memory : Memory) : Sync unit :=
  do! extraction :=
    lift (extractKnowledge generateText JSON_parse (memory_text memory)) in
  do! now := Date_now in
  let memoryNode := memoryNodeOf memory now in
  do! _ := addNode memoryNode in
  do! _ :=
    for_of (entities extraction) (fun entity =>
      do! _ := addNode (entityNodeOf entity) in
      addRelationship (memToEntityOf memoryNode entity)) in
  for_of (relationships extraction) (fun rel =>
    addRelationship (relationshipOf rel)).

(** [for (const memory of memories) { try { ...; result.processed++ }
    catch (error) { result.errors++ } }] *)
Fixpoint syncLoop (memories : list Memory) (result : SyncResult)
                  (w : World) : SyncResult * World :=
  match memories with
  | [] => (result, w)
  | memory :: rest =>
      match processMemory memory w with
      | (Returned _, w') =>
          syncLoop rest
            {| processed := S (processed result);
               errors := errors result;
               skipped := skipped result |} w'
      | (Thrown _, w') =>
          syncLoop rest
            {| processed := processed result;
               errors := S (errors result);
               skipped := skipped result |} w'
      end
  end.

(** [syncKnowledgeGraph(options)].  The outer [catch] logs and rethrows. *)
Definition syncKnowledgeGraph (options : SyncOptions) : Sync SyncResult :=
  fun w =>
    let result := {| processed := 0; errors := 0; skipped := 0 |} in
    match initialize with
    | Thrown error => (Thrown error, w)
    | Returned _ =>
        match retrieveMemories EmptyString 100 with
        | Thrown error => (Thrown error, w)
        | Returned memories =>
            let (result', w') := syncLoop memories result w in
            (Returned result',
             {| w_graph := w_graph w';
                w_calls := w_calls w';
                w_faults := w_faults w';
                w_clock := w_clock w';
                w_lastSyncTime := w_clock w' |})
        end
    end.

(** The outcome of the [try] block for each memory of the loop, in order. *)
Fixpoint item_outcomes (memories : list Memory) (w : World)
  : list (outcome unit) :=
  match memories with
  | [] => []
  | memory :: rest =>
      let (o, w') := processMemory memory w in o :: item_outcomes rest w'
  end.

(** What [extractKnowledge] hands to the loop for a memory. *)
Definition extracted (memory : Memory) : KnowledgeExtractionResult :=
  match extractKnowledge generateText JSON_parse (memory_text memory) with
  | Returned extraction => extraction
  | Thrown _ => emptyExtraction
  end.
End SyncKnowledgeGraph.

(** The keys of the requests one memory gives rise to, from the id of the
    memory, the ids of the extracted entities, and the source, type and
    target of the extracted relationships. *)
Definition memory_keys (id : string) (extraction : KnowledgeExtractionResult)
  : list KgKey :=
  NodeKey ("Memory_" ++ id) ::
  flat_map (fun entity =>
              [ NodeKey (ent_id entity);
                RelationshipKey
                  ("rel-" ++ "Memory_" ++ id ++ "-mentions-" ++ ent_id entity) ])
           (entities extraction) ++
  map (fun rel =>
         RelationshipKey
           ("rel-" ++ rel_sourceEntityId rel ++ "-" ++ rel_type rel ++ "-" ++
            rel_targetEntityId rel))
      (relationships extraction).

(** The requests one memory gives rise to, in the order they are sent: the
    memory node, a node and a MENTIONS relationship for every extracted
    entity, a relationship for every extracted relationship. *)
Definition entity_calls (memoryNode : KgNode) (entity : ExtractedEntity)
  : list KgCall :=
  [ AddNode (entityNodeOf entity);
    AddRelationship (memToEntityOf memoryNode entity) ].

Definition memory_calls (memory : Memory) (now : Z)
    (extraction : KnowledgeExtractionResult) : list KgCall :=
  AddNode (memoryNodeOf memory now) ::
  flat_map (entity_calls (memoryNodeOf memory now)) (entities extraction) ++
  map (fun rel => AddRelationship (relationshipOf rel))
      (relationships extraction).

(** Sending requests one after the other, up to the first that fails. *)
Fixpoint send_all (calls : list KgCall) : Sync unit :=
  match calls with
  | [] => ret tt
  | c :: rest => do! _ := kg_request c in send_all rest
  end.

(** The graph after a list of successful requests. *)
Definition upsert_all (calls : list KgCall) (g : KnowledgeGraph)
  : KnowledgeGraph :=
  fold_left (fun g c => upsert c g) calls g.

(** The requests sent between two worlds. *)
Definition issued (before after : World) : list KgCall :=
  skipn (length (w_calls before)) (w_calls after).

(** The same world at another time. *)
Definition at_time (now : Z) (w : World) : World :=
  {| w_graph := w_graph w; w_calls := w_calls w; w_faults := w_faults w;
     w_clock := now; w_lastSyncTime := w_lastSyncTime w |}.

(** The same memory with other tags. *)
Definition with_tags (tags : list string) (memory : Memory) : Memory :=
  {| memory_id := memory_id memory;
     memory_text := memory_text memory;
     memory_metadata :=
       {| md_timestamp := md_timestamp (memory_metadata memory);
          md_tags := tags |} |}.

Definition is_failure {A} (o : outcome A) : bool :=
  match o with
  | Returned _ => false
  | Thrown _ => true
  end.

(** The requests of a run over [memories] in which no request fails. *)
Definition run_calls (generateText : string -> outcome string)
    (JSON_parse : string -> outcome ParsedJson)
    (memories : list Memory) (now : Z) : list KgCall :=
  flat_map (fun memory =>
              memory_calls memory now
                (extracted generateText JSON_parse memory))
           memories.

(** The number of failed and of successful items among the outcomes. *)
Definition failures (outcomes : list (outcome unit)) : nat :=
  length (List.filter is_failure outcomes).
Definition successes (outcomes : list (outcome unit)) : nat :=
  length (List.filter (fun o => negb (is_failure o)) outcomes).

End SyncService.

(** Data of the integration tests, used to run the handlers. *)
Module Scenario.
Import McpServer LlmService SyncService.

Definition note (importance : option Q) : SaveMemoryArgs :=
  {| sa_content := "Python is great for data science";
     sa_tags := Some ["python"; "data-science"];
     sa_importance := importance;
     sa_context := None;
     sa_sessionId := None |}.

Definition stored (id text : string) (tags : list string) (importance : Q)
  : StoredMemory :=
  {| mem_id := id; mem_text := text; mem_tags := tags;
     mem_importance := importance; mem_sessionId := Some "test_session";
     mem_context := None; mem_source := "explicit";
     mem_timestamp := 1700000000000 |}.

Definition javascript : StoredMemory :=
  stored "mem_1" "JavaScript is a programming language"
         ["javascript"; "programming"] 5.
Definition python : StoredMemory :=
  stored "mem_2" "Python is great for data science"
         ["python"; "data-science"] 7.
Definition typescript : StoredMemory :=
  stored "mem_3" "TypeScript adds types to JavaScript"
         ["typescript"; "javascript"] 8.

Definition fetchAll (_ : Filters) : outcome (list StoredMemory) :=
  Returned [javascript; python; typescript].

(** Scores 0.62, 0.154 and 0.48 for the three memories. *)
Definition tableScore (_ : string) (m : StoredMemory) : Q :=
  if String.eqb (mem_id m) "mem_1" then 62 # 100
  else if String.eqb (mem_id m) "mem_2" then 154 # 1000
  else 48 # 100.

Definition searchFor (limit : option nat) (minScore : option Q) : SearchArgs :=
  {| q_query := "programming"; q_tags := None;
     q_importance_min := None; q_importance_max := None;
     q_limit := limit; q_page := None;
     q_minScore := minScore; q_sessionId := Some "test_session" |}.

(** The three memories as ranked for the query "programming" with the
    default threshold. *)
Definition rankedProgramming : list MemorySearchResult :=
  [ scored tableScore "programming" javascript;
    scored tableScore "programming" typescript;
    scored tableScore "programming" python ].

Definition emptyRepository : MemoryRepository :=
  {| repo_records := ∅; repo_projection := ∅; repo_reachable := true |}.

(** A model that answers every prompt with an empty object in a [json]
    code fence, and a parser that knows that object only. *)
Definition fencedCompletion (_ : string) : outcome string :=
  Returned (fenced "{}").
Definition parseBraces (s : string) : outcome ParsedJson :=
  if String.eqb s "{}" then Returned (JsonValue None None)
  else Thrown "SyntaxError: Unexpected token".

(** Memories of the store, a store that hands them over, and worlds to run
    the sync in: a fresh one, and one whose first request is going to fail. *)
Definition memoryOf (id text : string) (tags : list string) : Memory :=
  {| memory_id := id; memory_text := text;
     memory_metadata :=
       {| md_timestamp := Some 1700000000000%Z; md_tags := tags |} |}.

Definition taggedMemory : Memory :=
  memoryOf "mem_7" "Memory with multiple tags" ["tag1"; "tag2"; "tag3"].
Definition updatedMemory : Memory :=
  memoryOf "mem_8" "Tag update test" ["new-tag-1"; "new-tag-2"].

Definition retrieveTagged (_ : string) (_ : nat) : outcome (list Memory) :=
  Returned [taggedMemory].
Definition retrieveBoth (_ : string) (_ : nat) : outcome (list Memory) :=
  Returned [taggedMemory; updatedMemory].

Definition freshWorld : World :=
  {| w_graph := {| kg_nodes := ∅; kg_relationships := ∅ |};
     w_calls := []; w_faults := [];
     w_clock := 1700000001000; w_lastSyncTime := 0 |}.

Definition flakyWorld : World :=
  {| w_graph := {| kg_nodes := ∅; kg_relationships := ∅ |};
     w_calls := []; w_faults := [true];
     w_clock := 1700000001000; w_lastSyncTime := 0 |}.

Definition incremental : SyncOptions := {| forceFullResync := Some false |}.
Definition fullResync : SyncOptions := {| forceFullResync := Some true |}.

(** A model and a parser that find one entity, Ada, in every text. *)
Definition ada : ExtractedEntity :=
  {| ent_id := "ada"; ent_label := "Person";
     ent_properties := [("name", PString "Ada Lovelace")] |}.
Definition adaCompletion (_ : string) : outcome string := Returned "ada".
Definition adaParse (s : string) : outcome ParsedJson :=
  if String.eqb s "ada" then Returned (JsonValue (Some [ada]) None)
  else Thrown "SyntaxError: Unexpected token".

End Scenario.

(** *** The MCP server: further tool handlers *)

Module McpTools.
Import McpServer.

(** The [summary] of a [save_memory] response, when it reports success. *)
Definition response_summary (r : ToolResponse SaveResult) : option SaveSummary :=
  match tr_result r with
  | SaveSuccess _ _ summary => Some summary
  | SaveFailure _ => None
  end.

(** **** search_memories over any memory service *)

Section SearchVia.
(** [memoryService.searchMemories(query, options)] of
    lib/conscious-memory.ts, whatever it does. *)
Variable searchMemories :
  string -> SearchOptions -> outcome (list MemorySearchResult).

Definition search_memories_via (a : SearchArgs) : ToolResponse SearchResult :=
  let pageSize := or_nat (q_limit a) 10 in
  let currentPage := or_nat (q_page a) 1 in
  let offset := (currentPage - 1) * pageSize in
  match searchMemories (q_query a) (search_options a) with
  | Returned allResults =>
      let paginatedResults := slice offset (offset + pageSize) allResults in
      let totalResults := length allResults in
      let totalPages := Math_ceil_div totalResults pageSize in
      mkToolResponse
        (SearchSuccess
           {| sr_query := q_query a;
              sr_found := length paginatedResults;
              sr_totalResults := totalResults;
              sr_pagination :=
                {| pg_page := currentPage;
                   pg_pageSize := pageSize;
                   pg_totalPages := totalPages;
                   pg_hasNext := (currentPage <? totalPages)%nat;
                   pg_hasPrevious := (1 <? currentPage)%nat |};
              sr_memories := map memory_entry paginatedResults |})
        false
  | Thrown message =>
      mkToolResponse
        (SearchFailure
           {| er_error := "Failed to search conscious memories";
              er_details := Some message |})
        true
  end.
End SearchVia.

(** The summary of a search response that reports success. *)
Definition response_search (r : ToolResponse SearchResult)
  : option SearchSummary :=
  match tr_result r with
  | SearchSuccess s => Some s
  | SearchFailure _ => None
  end.

(** **** update_memory *)

Record UpdateArgs : Type := mkUpdateArgs {
  u_id : string;
  u_content : option string;
  u_tags : option (list string);
  u_importance : option Q;
  u_context : option string
}.

(** [importance: z.number().min(1).max(10).optional()] *)
Definition update_schema (a : UpdateArgs) : bool :=
  in_range 1 10 (u_importance a).

Inductive UpdateResult : Type :=
| UpdateSuccess (id : string) (message : string) (updates : UpdateArgs)
| UpdateNotFound (error : string)
| UpdateFailure (e : ErrorResult).

Section UpdateMemory.
(** [memoryService.updateMemory({ id, content, tags, importance, context })] *)
Variable updateMemory : UpdateArgs -> outcome bool.

Definition update_memory (a : UpdateArgs) : ToolResponse UpdateResult :=
  let id := u_id a in
  match updateMemory a with
  | Returned success =>
      mkToolResponse
        (if success
         then UpdateSuccess id ("Memory " ++ id ++ " updated successfully") a
         else UpdateNotFound
                ("Memory " ++ id ++ " not found or could not be updated"))
        (negb success)
  | Thrown message =>
      mkToolResponse
        (UpdateFailure
           {| er_error := "Failed to update conscious memory";
              er_details := Some message |})
        true
  end.
End UpdateMemory.

(** **** get_memory_stats *)

(** What [memoryService.getStats] resolves to. *)
Record MemoryStats : Type := mkMemoryStats {
  st_totalConsciousMemories : nat;
  st_tagCount : nat;
  st_averageImportance : Q;
  st_sourceBreakdown : list (string * nat)
}.

Record StatsSummary : Type := mkStatsSummary {
  ss_totalMemories : nat;
  ss_uniqueTags : nat;
  ss_averageImportance : Q;
  ss_sourceBreakdown : list (string * nat)
}.

Inductive StatsResult : Type :=
| StatsSuccess (stats : StatsSummary)
| StatsFailure (e : ErrorResult).

Definition get_memory_stats (getStats : outcome MemoryStats)
  : ToolResponse StatsResult :=
  match getStats with
  | Returned stats =>
      mkToolResponse
        (StatsSuccess
           {| ss_totalMemories := st_totalConsciousMemories stats;
              ss_uniqueTags := st_tagCount stats;
              ss_averageImportance :=
                Math_round (st_averageImportance stats * 100) / 100;
              ss_sourceBreakdown := st_sourceBreakdown stats |})
        false
  | Thrown message =>
      mkToolResponse
        (StatsFailure
           {| er_error := "Failed to retrieve memory statistics";
              er_details := Some message |})
        true
  end.

End McpTools.

(** *** The MCP server: query_knowledge_graph *)

Module GraphQuery.
Import McpServer.

(** [\d] *)
Definition is_digit (c : ascii) : bool :=
  let n := nat_of_ascii c in (48 <=? n)%nat && (n <=? 57)%nat.

(** The canonical form of a character under the [i] flag. *)
Definition to_upper (c : ascii) : ascii :=
  let n := nat_of_ascii c in
  if (97 <=? n)%nat && (n <=? 122)%nat then ascii_of_nat (n - 32) else c.

(** [s] starts with [word], letter case apart. *)
Fixpoint starts_with_ci (word s : string) : bool :=
  match word, s with
  | EmptyString, _ => true
  | String w word', String c s' =>
      Ascii.eqb (to_upper w) (to_upper c) && starts_with_ci word' s'
  | String _ _, EmptyString => false
  end.

(** The number of leading characters of [s] that satisfy [p]. *)
Fixpoint span_length (p : ascii -> bool) (s : string) : nat :=
  match s with
  | String c rest => if p c then S (span_length p rest) else 0
  | EmptyString => 0
  end.

Fixpoint string_drop (n : nat) (s : string) : string :=
  match n, s with
  | S k, String _ rest => string_drop k rest
  | _, _ => s
  end.

(** [(SKIP|LIMIT)] at the start of [s], with the [i] flag: its length. *)
Definition keyword_length (s : string) : option nat :=
  if starts_with_ci "SKIP" s then Some 4
  else if starts_with_ci "LIMIT" s then Some 5
  else None.

(** The match of [/\s+(SKIP|LIMIT)\s+\d+/i] that starts at the start of
    [s]: its length.  Each of the three repetitions is greedy, and what
    follows it cannot start with a character it accepts, so each takes the
    whole run. *)
Definition match_clause (s : string) : option nat :=
  match span_length is_space s with
  | O => None
  | S _ as n1 =>
      let s1 := string_drop n1 s in
      match keyword_length s1 with
      | None => None
      | Some n2 =>
          let s2 := string_drop n2 s1 in
          match span_length is_space s2 with
          | O => None
          | S _ as n3 =>
              let s3 := string_drop n3 s2 in
              match span_length is_digit s3 with
              | O => None
              | S _ as n4 => Some (n1 + n2 + n3 + n4)
              end
          end
      end
  end.

(** [s.replace(/\s+(SKIP|LIMIT)\s+\d+/gi, '')]: the input is scanned from
    left to right; [skip] characters of a match remain to be dropped. *)
Fixpoint remove_clauses (skip : nat) (s : string) : string :=
  match s with
  | String c rest =>
      match skip with
      | S k => remove_clauses k rest
      | O =>
          match match_clause s with
          | Some n => remove_clauses (n - 1) rest
          | None => String c (remove_clauses 0 rest)
          end
      end
  | EmptyString => EmptyString
  end.

(** [query.trim().replace(/\s+(SKIP|LIMIT)\s+\d+/gi, '')] *)
Definition cleanQuery (query : string) : string :=
  remove_clauses 0 (trim query).

(** A count in a template literal. *)
Definition decimal (n : nat) : string :=
  NilZero.string_of_uint (Nat.to_uint n).

(** [`${cleanQuery} SKIP ${skip} LIMIT ${pageSize}`] *)
Definition paginatedQuery (query : string) (skip pageSize : nat) : string :=
  cleanQuery query ++ " SKIP " ++ decimal skip ++ " LIMIT " ++ decimal pageSize.

(** A line terminator, which [.] does not match. *)
Definition is_line_terminator (c : ascii) : bool :=
  let n := nat_of_ascii c in (n =? 10)%nat || (n =? 13)%nat.

(** [(?:RETURN|ORDER BY)] at the start of [s], with the [i] flag. *)
Definition at_return (s : string) : bool :=
  starts_with_ci "RETURN" s || starts_with_ci "ORDER BY" s.

(** [.+?] followed by [(?:RETURN|ORDER BY)]: the shortest non-empty run of
    characters other than line terminators after which the alternative
    matches. *)
Fixpoint lazy_run (s : string) : option string :=
  match s with
  | String c rest =>
      if is_line_terminator c then None
      else if at_return rest then Some (String c EmptyString)
      else match lazy_run rest with
           | Some run => Some (String c run)
           | None => None
           end
  | EmptyString => None
  end.

Fixpoint string_take (n : nat) (s : string) : string :=
  match n, s with
  | S k, String c rest => String c (string_take k rest)
  | _, _ => EmptyString
  end.

(** [cleanQuery.match(/^(MATCH .+?)(?:RETURN|ORDER BY)/i)?.[1]] *)
Definition countQuery (cleanQuery : string) : option string :=
  if starts_with_ci "MATCH " cleanQuery then
    match lazy_run (string_drop 6 cleanQuery) with
    | Some run => Some (string_take 6 cleanQuery ++ run)
    | None => None
    end
  else None.

(** The count query: [countQuery] followed by a [RETURN] of the count of
    all matches as [total], or [null] without a [countQuery]. *)
Definition totalCountQuery (cleanQuery : string) : option string :=
  match countQuery cleanQuery with
  | Some q => Some (q ++ " RETURN count(*) as total")
  | None => None
  end.

Record GraphQueryArgs (Params : Type) : Type := mkGraphQueryArgs {
  g_query : string;
  g_parameters : option Params;
  g_limit : option nat;
  g_page : option nat
}.
Arguments mkGraphQueryArgs {Params} _ _ _ _.
Arguments g_query {Params} _.
Arguments g_parameters {Params} _.
Arguments g_limit {Params} _.
Arguments g_page {Params} _.

(** [limit] in 1..100, [page] at least 1. *)
Definition graph_query_schema {Params} (a : GraphQueryArgs Params) : bool :=
  match g_limit a with
  | Some n => (1 <=? n)%nat && (n <=? 100)%nat
  | None => true
  end &&
  match g_page a with Some n => (1 <=? n)%nat | None => true end.

(** The [pagination] of the response; [None] is the string 'unknown'. *)
Record GraphPagination : Type := mkGraphPagination {
  gp_page : nat;
  gp_pageSize : nat;
  gp_totalPages : option nat;
  gp_hasNext : bool;
  gp_hasPrevious : bool
}.

Record GraphQuerySummary (R : Type) : Type := mkGraphQuerySummary {
  gq_query : string;
  gq_found : nat;
  gq_totalResults : option Z;
  gq_pagination : GraphPagination;
  gq_records : list R
}.
Arguments mkGraphQuerySummary {R} _ _ _ _ _.
Arguments gq_query {R} _.
Arguments gq_found {R} _.
Arguments gq_totalResults {R} _.
Arguments gq_pagination {R} _.
Arguments gq_records {R} _.

Inductive GraphQueryResult (R : Type) : Type :=
| GraphQuerySuccess (s : GraphQuerySummary R)
| GraphQueryFailure (e : ErrorResult).
Arguments GraphQuerySuccess {R} s.
Arguments GraphQueryFailure {R} e.

Section QueryKnowledgeGraph.
(** The graph service of lib/knowledge-graph-service.ts: [connect],
    [runQuery(statement, parameters)], which resolves to an array of record
    objects, and, of such a record, its [total] property when it has one (a
    number). *)
Variable Params : Type.
Variable QueryRecord : Type.
Variable noParams : Params.
Variable connect : outcome unit.
Variable runQuery : string -> Params -> outcome (list QueryRecord).
Variable total_of : QueryRecord -> option Z.

(** [countRecords[0]?.total || -1], the count query having run with
    [.catch(() => [])]. *)
Definition count_total (query : string) (parameters : Params) : Z :=
  let countRecords :=
    match runQuery query parameters with
    | Returned records => records
    | Thrown _ => []
    end in
  or_Z (match countRecords with
        | record :: _ => total_of record
        | [] => None
        end) (-1).

Definition query_knowledge_graph (a : GraphQueryArgs Params)
  : ToolResponse (GraphQueryResult QueryRecord) :=
  match
    (let! _ := connect in
     let pageSize := or_nat (g_limit a) 20 in
     let currentPage := or_nat (g_page a) 1 in
     let skip := (currentPage - 1) * pageSize in
     let clean := cleanQuery (g_query a) in
     let paginated := paginatedQuery (g_query a) skip pageSize in
     let parameters := or_object (g_parameters a) noParams in
     let! records := runQuery paginated parameters in
     let totalResults :=
       match totalCountQuery clean with
       | Some q => count_total q parameters
       | None => (-1)%Z
       end in
     let totalPages :=
       if (0 <? totalResults)%Z
       then Math_ceil_div (Z.to_nat totalResults) pageSize
       else 1%nat in
     let known := negb (totalResults =? -1)%Z in
     Returned
       {| gq_query := paginated;
          gq_found := length records;
          gq_totalResults := if known then Some totalResults else None;
          gq_pagination :=
            {| gp_page := currentPage;
               gp_pageSize := pageSize;
               gp_totalPages := if known then Some totalPages else None;
               gp_hasNext :=
                 if known then (currentPage <? totalPages)%nat
                 else (length records =? pageSize)%nat;
               gp_hasPrevious := (1 <? currentPage)%nat |};
          gq_records := records |})
  with
  | Returned summary => mkToolResponse (GraphQuerySuccess summary) false
  | Thrown message =>
      mkToolResponse
        (GraphQueryFailure
           {| er_error := "Failed to execute Cypher query";
              er_details := Some message |})
        true
  end.

(** The summary of a response that reports success. *)
Definition response_graph (r : ToolResponse (GraphQueryResult QueryRecord))
  : option (GraphQuerySummary QueryRecord) :=
  match tr_result r with
  | GraphQuerySuccess s => Some s
  | GraphQueryFailure _ => None
  end.
End QueryKnowledgeGraph.

(** **** Texts the rewriting leaves alone *)

(** Some match of [/\s+(SKIP|LIMIT)\s+\d+/i] starts somewhere in [s]. *)
Fixpoint has_clause (s : string) : bool :=
  match s with
  | String _ rest =>
      match match_clause s with Some _ => true | None => false end ||
      has_clause rest
  | EmptyString => false
  end.

(** [s] is not empty and its last character is not white space. *)
Fixpoint ends_black (s : string) : bool :=
  match s with
  | String c rest =>
      match rest with
      | EmptyString => negb (is_space c)
      | String _ _ => ends_black rest
      end
  | EmptyString => false
  end.

(** [t] starts with a space followed by a character that is neither white
    space nor a digit, as a clause appended by the handler does. *)
Definition opens_clause (t : string) : bool :=
  match t with
  | String s (String x _) =>
      Ascii.eqb s " " && negb (is_space x) && negb (is_digit x)
  | _ => false
  end.

End GraphQuery.

(** *** sync.ts: the command-line runner of the sync *)

Module SyncRunner.
Import LlmService SyncService.

(** [args.includes(flag)] *)
Definition includes (flag : string) (args : list string) : bool :=
  existsb (String.eqb flag) args.

(** What has become of the process once [main] has settled: it has exited
    with a code, or it stays alive for the scheduled syncs. *)
Inductive ProcessState : Type :=
| Exited (code : nat)
| Watching.

Section Runner.
Variable generateText : string -> outcome string.
Variable JSON_parse : string -> outcome ParsedJson.
Variable initialize : outcome unit.
Variable retrieveMemories : string -> nat -> outcome (list Memory).
(** [knowledgeGraphServiceInstance.connect()] *)
Variable connect : outcome unit.

(** [runSync()]: connect, run the sync, return its result; the [catch]
    logs and rethrows. *)
Definition runSync (forceFullResync : bool) : Sync SyncResult :=
  fun w =>
    match connect with
    | Thrown error => (Thrown error, w)
    | Returned _ =>
        syncKnowledgeGraph generateText JSON_parse initialize retrieveMemories
          {| forceFullResync := Some forceFullResync |} w
    end.

(** [main()] with [main().catch(... process.exit(1))], for the arguments
    [process.argv.slice(2)]: after the first sync the process exits with 0,
    or, with [--watch], stays alive. *)
Definition main (args : list string) (w : World) : ProcessState * World :=
  let watchMode := includes "--watch" args in
  let forceFullResync := includes "--full-resync" args in
  match runSync forceFullResync w with
  | (Returned _, w') => (if watchMode then Watching else Exited 0, w')
  | (Thrown _, w') => (Exited 1, w')
  end.
End Runner.

End SyncRunner.

(** Further data to run the handlers and the sync on. *)

Module Samples.
Import McpServer McpTools GraphQuery LlmService SyncService Scenario.

(** A store that saves every memory under the id [mem_1]. *)
Definition storeAsFirst (_ : SaveMemoryRequest) : outcome string :=
  Returned "mem_1".

(** A memory service that knows the three ranked memories and hands over
    at most [limit] of them. *)
Definition rankedService (_ : string) (options : SearchOptions)
  : outcome (list MemorySearchResult) :=
  Returned (firstn (so_limit options) rankedProgramming).

(** An update that sets the importance of [mem_1] to 7. *)
Definition reweigh : UpdateArgs :=
  {| u_id := "mem_1"; u_content := None; u_tags := None;
     u_importance := Some 7%Q; u_context := None |}.

(** The statistics of a store of three memories of importance 5, 7 and 8. *)
Definition threeStats : MemoryStats :=
  {| st_totalConsciousMemories := 3; st_tagCount := 5;
     st_averageImportance := 20 # 3;
     st_sourceBreakdown := [("explicit", 3%nat)] |}.

(** A world whose second request is going to fail. *)
Definition secondFails : World :=
  {| w_graph := {| kg_nodes := ∅; kg_relationships := ∅ |};
     w_calls := []; w_faults := [false; true];
     w_clock := 1700000001000; w_lastSyncTime := 0 |}.

(** A graph of 45 nodes.  A record is its [total] property, if any: the
    count query answers with one record that has it, any other query with
    twenty records that do not. *)
Definition allNodes : string := "MATCH (n) RETURN n".

Definition graphOf45 (statement : string) (_ : unit)
  : outcome (list (option Z)) :=
  if String.eqb statement "MATCH (n)  RETURN count(*) as total"
  then Returned [Some 45%Z]
  else Returned (repeat None 20).

(** The second page of twenty of all nodes. *)
Definition secondPage : GraphQueryArgs unit :=
  {| g_query := allNodes; g_parameters := None;
     g_limit := Some 20%nat; g_page := Some 2%nat |}.

End Samples.

(** ** Part II.  Properties *)

(** *** Numbers *)

Module JSFacts.

Lemma Qlt_bool_iff (a b : Q) : Qlt_bool a b = true <-> (a < b)%Q.
Proof.
  unfold Qlt_bool. rewrite negb_true_iff. split.
  - intros H. apply Qnot_le_lt. intros Hle.
    apply Qle_bool_iff in Hle. congruence.
  - intros H. destruct (Qle_bool b a) eqn:E; [|reflexivity].
    apply Qle_bool_iff in E. exfalso. exact (Qlt_not_le _ _ H E).
Qed.

Lemma Qlt_bool_false_iff (a b : Q) : Qlt_bool a b = false <-> (b <= a)%Q.
Proof.
  unfold Qlt_bool. rewrite negb_false_iff. apply Qle_bool_iff.
Qed.

Lemma or_number_zero (v d : Q) : (v == 0)%Q -> or_number (Some v) d = d.
Proof.
  intros H. unfold or_number. apply Qeq_bool_iff in H. now rewrite H.
Qed.

Lemma or_number_nonzero (v d : Q) : ~ (v == 0)%Q -> or_number (Some v) d = v.
Proof.
  intros H. unfold or_number. destruct (Qeq_bool v 0) eqn:E; [|reflexivity].
  apply Qeq_bool_iff in E. contradiction.
Qed.

(** [Math.max(1, Math.floor(x))] as an integer. *)
Lemma Math_max_1_floor (x : Q) :
  Math_max 1 (Math_floor x) = inject_Z (Z.max 1 (Qfloor x)).
Proof.
  unfold Math_max, Math_floor.
  destruct (Qle_bool 1 (inject_Z (Qfloor x))) eqn:E.
  - apply Qle_bool_iff in E. change 1%Q with (inject_Z 1) in E.
    rewrite <- Zle_Qle in E. now rewrite Z.max_r.
  - assert (H : ~ (1 <= Qfloor x)%Z).
    { intros H. rewrite Zle_Qle in H. apply Qle_bool_iff in H.
      change (inject_Z 1) with 1%Q in H. congruence. }
    rewrite Z.max_l by lia. reflexivity.
Qed.

Lemma Qfloor_tenfold (v : Q) :
  (0 < v)%Q -> (v < 1)%Q -> (0 <= Qfloor (10 * v) < 10)%Z.
Proof.
  intros H0 H1. split.
  - rewrite <- (Qfloor_Z 0). apply Qfloor_resp_le.
    change (inject_Z 0) with 0%Q. lra.
  - rewrite Zlt_Qlt. eapply Qle_lt_trans; [apply Qfloor_le|].
    change (inject_Z 10) with 10%Q. lra.
Qed.

End JSFacts.

(** *** The tool handlers *)

Module McpServerFacts.
Import McpServer Scenario JSFacts.

(** The three ways an admitted importance is treated. *)
Lemma safeImportance_cases (importance : option Q) :
  importance_schema importance = true ->
  (safeImportance importance = 5%Q /\
   (importance = None \/ exists v, importance = Some v /\ (v == 0)%Q)) \/
  (exists v, importance = Some v /\ (0 < v)%Q /\ (v < 1)%Q /\
     safeImportance importance = inject_Z (Z.max 1 (Qfloor (10 * v))) /\
     (1 <= Z.max 1 (Qfloor (10 * v)) <= 9)%Z) \/
  (exists v, importance = Some v /\ (1 <= v)%Q /\ (v <= 10)%Q /\
     safeImportance importance = v).
Proof.
  intros Hs. destruct importance as [v|]; [|left; split; [reflexivity|now left]].
  simpl in Hs. apply andb_true_iff in Hs as [H0 H10].
  apply Qle_bool_iff in H0, H10.
  destruct (Qeq_dec v 0) as [Hz|Hnz].
  { left. split; [|right; eauto]. unfold safeImportance.
    rewrite (or_number_zero v 5 Hz). reflexivity. }
  assert (Hpos : (0 < v)%Q).
  { apply Qle_lteq in H0 as [H|H]; [exact H|]. exfalso. apply Hnz.
    symmetry. exact H. }
  unfold safeImportance. rewrite (or_number_nonzero v 5 Hnz).
  destruct (Qlt_le_dec v 1) as [Hlt|Hge].
  - right; left. exists v.
    pose proof (proj2 (Qlt_bool_iff _ _) Hpos) as Hb0.
    pose proof (proj2 (Qlt_bool_iff _ _) Hlt) as Hb1.
    pose proof (Qfloor_tenfold v Hpos Hlt) as Hf.
    rewrite Hb0, Hb1. cbn [andb]. rewrite Math_max_1_floor.
    repeat split; try assumption; lia.
  - right; right. exists v.
    pose proof (proj2 (Qlt_bool_false_iff _ _) Hge) as Hb1.
    rewrite Hb1, andb_false_r.
    repeat split; assumption.
Qed.




(** C10.  An importance of exactly 0, like an omitted one, is admitted by
    the schema and stored as the default 5: [importance || 5] takes 0 for
    absent, and 5 is outside (0,1), so nothing is rescaled. *)
Theorem save_memory_importance_zero_is_default (a : SaveMemoryArgs) :
  (sa_importance a = None \/
   exists v, sa_importance a = Some v /\ (v == 0)%Q) ->
  importance_schema (sa_importance a) = true /\
  or_number (sa_importance a) 5 = 5%Q /\
  sm_importance (save_request a) = 5%Q.
Proof.
  intros [E | (v & E & Hz)]; rewrite ?E; cbn [sm_importance save_request];
    rewrite E.
  - repeat split.
  - split; [|split].
    + cbn [importance_schema]. apply andb_true_iff.
      split; apply Qle_bool_iff; rewrite Hz; discriminate.
    + now apply or_number_zero.
    + unfold safeImportance. rewrite (or_number_zero v 5 Hz). reflexivity.
Qed.

Lemma save_memory_importance_zero_is_default_witness :
  sm_importance (save_request (note (Some 0%Q))) = 5%Q /\
  sm_importance (save_request (note None)) = 5%Q.
Proof.
  split.
  - apply (save_memory_importance_zero_is_default (note (Some 0%Q))).
    right. exists 0%Q. split; reflexivity.
  - apply (save_memory_importance_zero_is_default (note None)).
    left. reflexivity.
Defined.

Lemma reported_score_lower (s : Q) : (s - (1 # 200) < reported_score s)%Q.
Proof.
  unfold reported_score, Math_round.
  pose proof (Qlt_floor (s * 100 + (1 # 2))) as H.
  rewrite inject_Z_plus in H. change (inject_Z 1) with 1%Q in H.
  set (f := inject_Z (Qfloor (s * 100 + (1 # 2)))) in *.
  apply Qlt_shift_div_l; [reflexivity|]. lra.
Qed.

Lemma reported_score_grid (k : Z) (s : Q) :
  (inject_Z k / 100 <= s)%Q -> (inject_Z k / 100 <= reported_score s)%Q.
Proof.
  intros H. unfold reported_score, Math_round.
  apply Qle_shift_div_l; [reflexivity|].
  assert (E : (inject_Z k / 100 * 100 == inject_Z k)%Q) by (field).
  rewrite E. rewrite <- Zle_Qle. rewrite <- (Qfloor_Z k) at 1.
  apply Qfloor_resp_le.
  set (x := inject_Z k) in *. lra.
Qed.

Lemma effective_minScore_ge (minScore : option Q) (t : Q) :
  minScore = Some t -> (t <= effective_minScore minScore)%Q.
Proof.
  intros ->. unfold effective_minScore.
  destruct (Qeq_dec t 0) as [Hz|Hnz].
  - rewrite (or_number_zero t _ Hz), Hz. discriminate.
  - rewrite (or_number_nonzero t _ Hnz). apply Qle_refl.
Qed.

Lemma slice_of_fetched {A} (offset pageSize : nat) (l : list A) :
  slice offset (offset + pageSize) (firstn (offset + pageSize * 2) l) =
  firstn pageSize (skipn offset l).
Proof.
  unfold slice.
  replace (offset + pageSize - offset)%nat with pageSize by lia.
  rewrite skipn_firstn_comm.
  replace (offset + pageSize * 2 - offset)%nat with (pageSize * 2)%nat by lia.
  rewrite firstn_firstn. f_equal. lia.
Qed.

Section SearchFacts.
Variable fetchCandidates : Filters -> outcome (list StoredMemory).
Variable finalScore : string -> StoredMemory -> Q.

Abbreviation rankedResults := (rankedResults fetchCandidates finalScore).
Abbreviation searchMemories := (searchMemories fetchCandidates finalScore).
Abbreviation search_memories := (search_memories fetchCandidates finalScore).

Lemma rankedResults_min_score query options ranked r :
  rankedResults query options = Returned ranked ->
  In r ranked -> (so_minScore options <= r_score r)%Q.
Proof.
  unfold McpServer.rankedResults, bind.
  destruct (fetchCandidates _) as [candidates|]; [|discriminate].
  intros [= <-] Hin. apply list_elem_of_In in Hin.
  rewrite merge_sort_Permutation in Hin.
  apply list_elem_of_filter in Hin as [Hle _].
  apply Qle_bool_iff. now apply Is_true_true.
Qed.

Lemma searchMemories_Returned query options allResults :
  searchMemories query options = Returned allResults ->
  exists ranked, rankedResults query options = Returned ranked /\
                 allResults = firstn (so_limit options) ranked.
Proof.
  unfold McpServer.searchMemories.
  destruct (McpServer.rankedResults _ _ query options) as [ranked|] eqn:E.
  - intros H. exists ranked. split; [reflexivity|].
    destruct query, (so_tags options), (so_sessionId options);
      simpl in H; congruence.
  - intros H.
    destruct query, (so_tags options), (so_sessionId options);
      simpl in H; congruence.
Qed.

Lemma searchMemories_accepted a ranked :
  accepted a ->
  rankedResults (q_query a) (search_options a) = Returned ranked ->
  searchMemories (q_query a) (search_options a) =
  Returned (firstn (so_limit (search_options a)) ranked).
Proof.
  intros Hacc E. unfold McpServer.searchMemories. rewrite E.
  cbn [so_tags so_sessionId search_options].
  destruct (q_query a) eqn:Eq, (q_tags a) eqn:Et, (q_sessionId a) eqn:Es;
    try reflexivity.
  exfalso. destruct Hacc as [H|[H|H]]; congruence.
Qed.

Lemma search_memories_accepted a ranked :
  accepted a ->
  rankedResults (q_query a) (search_options a) = Returned ranked ->
  response_memories (search_memories a) =
    map memory_entry
      (firstn (or_nat (q_limit a) 10)
         (skipn ((or_nat (q_page a) 1 - 1) * or_nat (q_limit a) 10) ranked)) /\
  tr_isError (search_memories a) = false.
Proof.
  intros Hacc E. unfold McpServer.search_memories.
  rewrite (searchMemories_accepted a ranked Hacc E).
  cbn [response_memories tr_result tr_isError sr_memories so_limit search_options].
  rewrite slice_of_fetched. split; reflexivity.
Qed.


Lemma or_nat_page (p : nat) : (1 <= p)%nat -> or_nat (Some p) 1 = p.
Proof. destruct p; [lia|reflexivity]. Qed.

Lemma search_memories_on_page a ranked p :
  accepted a ->
  rankedResults (q_query a) (search_options a) = Returned ranked ->
  (1 <= p)%nat ->
  response_memories (search_memories (on_page a p)) =
    map memory_entry
      (firstn (or_nat (q_limit a) 10)
         (skipn ((p - 1) * or_nat (q_limit a) 10) ranked)) /\
  tr_isError (search_memories (on_page a p)) = false.
Proof.
  intros Hacc E Hp.
  assert (Hacc' : accepted (on_page a p)) by exact Hacc.
  destruct (search_memories_accepted (on_page a p) ranked Hacc' E)
    as [Hm He].
  cbn [q_limit q_page on_page] in Hm. rewrite (or_nat_page p Hp) in Hm.
  now split.
Qed.

Lemma search_memories_pages_cover a ranked k :
  accepted a ->
  rankedResults (q_query a) (search_options a) = Returned ranked ->
  flat_map (fun p => response_memories (search_memories (on_page a p)))
           (seq 1 k) =
  map memory_entry (firstn (k * or_nat (q_limit a) 10) ranked).
Proof.
  intros Hacc E. induction k as [|k IH]; [reflexivity|].
  rewrite seq_S, flat_map_app, IH. cbn [flat_map]. rewrite app_nil_r.
  destruct (search_memories_on_page a ranked (1 + k) Hacc E) as [-> _];
    [lia|].
  rewrite <- map_app. f_equal.
  replace (1 + k - 1)%nat with k by lia.
  replace (S k * or_nat (q_limit a) 10)%nat
    with (k * or_nat (q_limit a) 10 + or_nat (q_limit a) 10)%nat by lia.
  apply take_take_drop.
Qed.

End SearchFacts.




(** C9 (as amended).  Deleting an id that the reachable store does not
    hold changes nothing and makes [deleteMemory] return [false] without
    throwing; the [delete_memory] handler reports that to its caller as
    an error response: [success: false], the message that the memory was
    not found or could not be deleted, and [isError: true]. *)
Theorem delete_memory_absent (id : string) (repo : MemoryRepository) :
  repo_reachable repo = true ->
  repo_records repo !! id = None ->
  deleteMemory id repo = (Returned false, repo) /\
  delete_memory id repo =
    (mkToolResponse
       (DeleteNotFound ("Memory " ++ id ++ " not found or could not be deleted"))
       true,
     repo).
Proof.
  intros Hr Hn. unfold delete_memory, deleteMemory. rewrite Hr, Hn.
  split; reflexivity.
Qed.

Lemma delete_memory_absent_witness :
  deleteMemory "mem_404" emptyRepository = (Returned false, emptyRepository).
Proof.
  apply (delete_memory_absent "mem_404" emptyRepository); reflexivity.
Defined.

(** C9 as stated fails: the delete of an absent id is surfaced to the
    caller as an error. *)
Lemma delete_memory_absent_is_error :
  repo_records emptyRepository !! "mem_404" = None /\
  tr_isError (fst (delete_memory "mem_404" emptyRepository)) = true.
Proof. split; reflexivity. Qed.

(** Deleting twice: the second call finds the id absent and leaves the
    repository as the first call left it. *)
Lemma delete_memory_twice (id : string) (repo : MemoryRepository) :
  snd (delete_memory id (snd (delete_memory id repo))) =
  snd (delete_memory id repo).
Proof.
  unfold delete_memory, deleteMemory.
  destruct (repo_reachable repo) eqn:Hr; cbn; [|now rewrite Hr].
  destruct (repo_records repo !! id) eqn:Hl; cbn.
  - now rewrite lookup_delete_eq.
  - now rewrite Hr, Hl.
Qed.

End McpServerFacts.

(** *** Entity extraction *)

Module LlmServiceFacts.
Import LlmService Scenario.

Lemma has_fence_cons a tl :
  has_fence (String a tl) = (is_backtick a && starts_2 tl) || has_fence tl.
Proof.
  destruct tl as [|b [|c rest]]; cbn [has_fence starts_2].
  - now rewrite andb_false_r.
  - now rewrite andb_false_r.
  - now rewrite andb_assoc.
Qed.

Lemma remove_fences_cons a tl :
  is_backtick a && starts_2 tl = false ->
  remove_fences (String a tl) = String a (remove_fences tl).
Proof.
  intros H. destruct tl as [|b [|c rest]]; try reflexivity.
  cbn [starts_2] in H. cbn [remove_fences].
  rewrite andb_assoc in H. now rewrite H.
Qed.

Lemma remove_fences_fence a b c rest :
  is_backtick a && is_backtick b && is_backtick c = true ->
  remove_fences (String a (String b (String c rest))) =
  match rest with
  | String n rest' =>
      if Ascii.eqb n newline then remove_fences rest' else remove_fences rest
  | EmptyString => EmptyString
  end.
Proof. intros H. cbn [remove_fences]. now rewrite H. Qed.

(** Where the input does not start with a backtick, neither does the output. *)
Lemma remove_fences_starts_1 s :
  starts_1 s = false -> starts_1 (remove_fences s) = false.
Proof.
  destruct s as [|a tl]; [reflexivity|]. cbn [starts_1]. intros Ha.
  rewrite remove_fences_cons by now rewrite Ha. exact Ha.
Qed.

Lemma remove_fences_starts_2 s :
  starts_2 s = false -> starts_2 (remove_fences s) = false.
Proof.
  destruct s as [|a tl]; [reflexivity|]. intros H.
  destruct (is_backtick a) eqn:Ha.
  - destruct tl as [|b tl2]; [reflexivity|]. cbn [starts_2] in H.
    rewrite Ha in H. cbn [andb] in H.
    rewrite remove_fences_cons.
    2:{ rewrite Ha. cbn [andb starts_2]. destruct tl2; now rewrite ?H. }
    assert (Hb : starts_1 (String b tl2) = false) by exact H.
    apply remove_fences_starts_1 in Hb.
    cbn [starts_2]. rewrite Ha. cbn [andb].
    destruct (remove_fences (String b tl2)); [reflexivity|exact Hb].
  - rewrite remove_fences_cons by now rewrite Ha.
    cbn [starts_2]. destruct (remove_fences tl); now rewrite ?Ha.
Qed.

Lemma remove_fences_no_fence_aux n s :
  (String.length s <= n)%nat -> has_fence (remove_fences s) = false.
Proof.
  revert s. induction n as [|n IH]; intros s Hlen.
  - destruct s; [reflexivity|simpl in Hlen; lia].
  - destruct s as [|a tl]; [reflexivity|].
    destruct (is_backtick a && starts_2 tl) eqn:E.
    + destruct tl as [|b [|c rest]]; try (cbn in E; now rewrite andb_false_r in E).
      cbn [starts_2] in E. rewrite andb_assoc in E.
      rewrite (remove_fences_fence _ _ _ _ E).
      destruct rest as [|m rest']; [reflexivity|].
      destruct (Ascii.eqb m newline); apply IH; simpl in *; lia.
    + rewrite (remove_fences_cons _ _ E), has_fence_cons.
      rewrite IH by (simpl in Hlen; lia). rewrite orb_false_r.
      destruct (is_backtick a) eqn:Ha; [|reflexivity]. cbn [andb] in *.
      now apply remove_fences_starts_2.
Qed.

Lemma remove_fences_no_fence s : has_fence (remove_fences s) = false.
Proof. now apply (remove_fences_no_fence_aux (String.length s)). Qed.

Lemma has_fence_tail a tl : has_fence (String a tl) = false -> has_fence tl = false.
Proof. rewrite has_fence_cons. now intros [_ H]%orb_false_iff. Qed.

Lemma trimStart_no_fence s : has_fence s = false -> has_fence (trimStart s) = false.
Proof.
  induction s as [|c rest IH]; [reflexivity|]. intros H. cbn [trimStart].
  destruct (is_space c); [|exact H]. apply IH. now apply has_fence_tail in H.
Qed.

Lemma trimEnd_prefix s : exists t, s = trimEnd s ++ t.
Proof.
  induction s as [|c rest [t IH]]; [now exists EmptyString|].
  cbn [trimEnd]. destruct (trimEnd rest) as [|k kept].
  - destruct (is_space c).
    + now exists (String c rest).
    + now exists rest.
  - exists t. rewrite IH at 1. reflexivity.
Qed.

Lemma starts_2_prefix p t : starts_2 p = true -> starts_2 (p ++ t) = true.
Proof. destruct p as [|a [|b p]]; try discriminate. auto. Qed.

Lemma trimEnd_no_fence s : has_fence s = false -> has_fence (trimEnd s) = false.
Proof.
  induction s as [|c rest IH]; [reflexivity|]. intros H.
  pose proof (has_fence_tail _ _ H) as Hrest. specialize (IH Hrest).
  rewrite has_fence_cons in H. apply orb_false_iff in H as [H2 _].
  cbn [trimEnd]. destruct (trimEnd rest) as [|k kept] eqn:E.
  - destruct (is_space c); [reflexivity|]. cbn. reflexivity.
  - rewrite has_fence_cons, IH, orb_false_r.
    destruct (is_backtick c); [|reflexivity]. cbn [andb] in *.
    destruct (starts_2 (String k kept)) eqn:E2; [|reflexivity].
    destruct (trimEnd_prefix rest) as [t Ht]. rewrite E in Ht.
    rewrite Ht, (starts_2_prefix _ t E2) in H2. discriminate.
Qed.

(** The text handed to [JSON.parse] holds no code fence. *)
Lemma cleaned_no_fence text : has_fence (cleaned text) = false.
Proof.
  unfold cleaned, trim.
  apply trimEnd_no_fence, trimStart_no_fence, remove_fences_no_fence.
Qed.

Lemma remove_json_fences_cons a tl :
  is_backtick a = false ->
  remove_json_fences (String a tl) = String a (remove_json_fences tl).
Proof.
  intros H. destruct tl as [|b [|c [|d [|e [|f [|g rest]]]]]]; try reflexivity.
  cbn [remove_json_fences]. unfold is_json_fence. now rewrite H.
Qed.

Lemma remove_json_fences_plain body t :
  no_backtick body = true ->
  remove_json_fences (body ++ t) = body ++ remove_json_fences t.
Proof.
  induction body as [|a body IH]; [reflexivity|]. cbn [no_backtick].
  intros [Ha Hb]%andb_true_iff. apply negb_true_iff in Ha.
  change (String a body ++ t) with (String a (body ++ t)).
  rewrite remove_json_fences_cons by exact Ha.
  now rewrite IH.
Qed.

Lemma remove_fences_plain body t :
  no_backtick body = true ->
  remove_fences (body ++ t) = body ++ remove_fences t.
Proof.
  induction body as [|a body IH]; [reflexivity|]. cbn [no_backtick].
  intros [Ha Hb]%andb_true_iff. apply negb_true_iff in Ha.
  change (String a body ++ t) with (String a (body ++ t)).
  rewrite remove_fences_cons by now rewrite Ha.
  now rewrite IH.
Qed.

Lemma trimEnd_newline s : trimEnd (s ++ String newline EmptyString) = trimEnd s.
Proof.
  induction s as [|c rest IH]; [reflexivity|].
  change (String c rest ++ String newline EmptyString)
    with (String c (rest ++ String newline EmptyString)).
  cbn [trimEnd]. now rewrite IH.
Qed.

Lemma trim_newline s : trim (s ++ String newline EmptyString) = trim s.
Proof.
  unfold trim. induction s as [|c rest IH]; [reflexivity|].
  change (String c rest ++ String newline EmptyString)
    with (String c (rest ++ String newline EmptyString)).
  cbn [trimStart]. destruct (is_space c); [exact IH|].
  apply (trimEnd_newline (String c rest)).
Qed.

Lemma append_empty s t : s ++ t = EmptyString -> t = EmptyString.
Proof. destruct s; [auto|discriminate]. Qed.

Lemma trimEnd_kept s t :
  trimEnd t = t -> t <> EmptyString -> trimEnd (s ++ t) = s ++ t.
Proof.
  intros Ht Hne. induction s as [|c rest IH]; [exact Ht|].
  change (String c rest ++ t) with (String c (rest ++ t)).
  cbn [trimEnd]. rewrite IH.
  destruct (rest ++ t) eqn:E; [|reflexivity].
  apply append_empty in E. contradiction.
Qed.

Lemma fenced_parts body : fenced body = fence_open ++ (body ++ fence_close).
Proof. reflexivity. Qed.

(** A completion wrapped in a [json] code fence is parsed as its body. *)
Lemma cleaned_fenced body :
  no_backtick body = true -> cleaned (fenced body) = trim body.
Proof.
  intros Hb. unfold cleaned.
  assert (Et : trim (fenced body) = fenced body).
  { unfold trim. change (trimStart (fenced body)) with (fenced body).
    rewrite fenced_parts. apply trimEnd_kept.
    - now apply trimEnd_kept.
    - intros E. apply append_empty in E. discriminate. }
  rewrite Et.
  change (remove_json_fences (fenced body))
    with (remove_json_fences (body ++ fence_close)).
  rewrite (remove_json_fences_plain body _ Hb).
  change (remove_json_fences fence_close) with fence_close.
  rewrite (remove_fences_plain body _ Hb).
  change (remove_fences fence_close) with (String newline EmptyString).
  apply trim_newline.
Qed.

Section ExtractFacts.
Variable generateText : string -> outcome string.
Variable JSON_parse : string -> outcome ParsedJson.

Abbreviation extractKnowledge := (extractKnowledge generateText JSON_parse).

(** [extractKnowledge] returns for every content. *)
Lemma extractKnowledge_returns content :
  exists result, extractKnowledge content = Returned result.
Proof.
  unfold LlmService.extractKnowledge, try_catch, bind.
  destruct (generateText _) as [text|]; [|eauto].
  destruct (JSON_parse _) as [[|ents rels]|]; cbn [read_result]; eauto.
Qed.

(** C8.  [extractKnowledge] never throws: for every content it returns a
    result.  The text handed to [JSON.parse] is the completion with its
    code fences removed, so it holds no fence, and a completion wrapped in
    a [json] fence is parsed as its body.  When the model call fails, when
    the cleaned text does not parse, or when it parses to [null], the
    result is the empty one; otherwise it holds the parsed [entities] and
    [relationships], each defaulting to the empty array. *)
Theorem extractKnowledge_never_throws (content : string) :
  exists result : KnowledgeExtractionResult,
    extractKnowledge content = Returned result /\
    (forall e, generateText (prompt content) = Thrown e ->
       result = emptyExtraction) /\
    (forall text, generateText (prompt content) = Returned text ->
       has_fence (cleaned text) = false /\
       (forall e, JSON_parse (cleaned text) = Thrown e ->
          result = emptyExtraction) /\
       (JSON_parse (cleaned text) = Returned JsonNull ->
          result = emptyExtraction) /\
       (forall ents rels,
          JSON_parse (cleaned text) = Returned (JsonValue ents rels) ->
          result = {| entities := or_object ents [];
                      relationships := or_object rels [] |})) /\
    (forall body, no_backtick body = true -> cleaned (fenced body) = trim body).
Proof.
  unfold LlmService.extractKnowledge, try_catch, bind.
  destruct (generateText _) as [text|message] eqn:Eg.
  - destruct (JSON_parse (cleaned text)) as [[|ents rels]|message] eqn:Ep;
      cbn [read_result]; eexists; (split; [reflexivity|]);
      (split; [discriminate|]);
      (split; [|exact cleaned_fenced]);
      intros ? [= <-]; rewrite Ep;
      (split; [apply cleaned_no_fence|]);
      repeat split; try discriminate; try reflexivity.
    intros ? ? [= <- <-]. reflexivity.
  - eexists. split; [reflexivity|]. split; [reflexivity|].
    split; [discriminate|exact cleaned_fenced].
Qed.
End ExtractFacts.

Lemma extractKnowledge_never_throws_witness :
  LlmService.extractKnowledge fencedCompletion parseBraces "Ada wrote the first program" =
  Returned emptyExtraction.
Proof.
  destruct (extractKnowledge_never_throws fencedCompletion parseBraces
              "Ada wrote the first program")
    as (result & -> & _ & Ht & _).
  destruct (Ht (fenced "{}") eq_refl) as (_ & _ & _ & Hv).
  now rewrite (Hv None None eq_refl).
Defined.

End LlmServiceFacts.

(** *** Knowledge-graph synchronisation *)

Module SyncServiceFacts.
Import LlmService SyncService Scenario LlmServiceFacts.

(** **** Requests *)

Lemma kg_request_clock c w : w_clock (snd (kg_request c w)) = w_clock w.
Proof. unfold kg_request. now destruct (w_faults w) as [|[] ?]. Qed.

Lemma kg_request_calls c w :
  w_calls (snd (kg_request c w)) = (w_calls w ++ [c])%list.
Proof. unfold kg_request. now destruct (w_faults w) as [|[] ?]. Qed.

Lemma kg_request_lastSyncTime c w :
  w_lastSyncTime (snd (kg_request c w)) = w_lastSyncTime w.
Proof. unfold kg_request. now destruct (w_faults w) as [|[] ?]. Qed.

Lemma kg_request_Returned c w w' :
  kg_request c w = (Returned tt, w') ->
  w_graph w' = upsert c (w_graph w) /\ w_faults w' = tail (w_faults w).
Proof.
  unfold kg_request. destruct (w_faults w) as [|[] ?]; cbn;
    intros [= <-]; auto.
Qed.

Lemma kg_request_no_faults c w :
  w_faults w = [] ->
  kg_request c w =
  (Returned tt,
   {| w_graph := upsert c (w_graph w);
      w_calls := (w_calls w ++ [c])%list;
      w_faults := [];
      w_clock := w_clock w;
      w_lastSyncTime := w_lastSyncTime w |}).
Proof. intros H. unfold kg_request. now rewrite H. Qed.

(** Whatever fails, the requests already sent stay recorded, the first
    request of a list is always sent, and time does not move. *)
Lemma send_all_sent cs w :
  exists k,
    w_calls (snd (send_all cs w)) = (w_calls w ++ firstn k cs)%list /\
    (cs <> [] -> 1 <= k)%nat /\
    (fst (send_all cs w) = Returned tt -> firstn k cs = cs) /\
    w_clock (snd (send_all cs w)) = w_clock w /\
    w_lastSyncTime (snd (send_all cs w)) = w_lastSyncTime w.
Proof.
  revert w. induction cs as [|c cs IH]; intros w.
  - exists 0%nat. cbn. rewrite app_nil_r. repeat split; auto. congruence.
  - cbn [send_all]. unfold bindS.
    pose proof (kg_request_calls c w) as Hc.
    pose proof (kg_request_clock c w) as Ht.
    pose proof (kg_request_lastSyncTime c w) as Hl.
    destruct (kg_request c w) as [[[]|e] w1]; cbn [snd fst] in *.
    + destruct (IH w1) as (k & Hk & _ & Hr & Hk2 & Hk3).
      exists (S k). rewrite Hk, Hc, <- app_assoc. cbn [firstn app].
      repeat split; [lia | | congruence | congruence].
      intros H. now rewrite (Hr H).
    + exists 1%nat. cbn [firstn]. rewrite Hc.
      repeat split; [lia | discriminate | congruence | congruence].
Qed.

Lemma send_all_Returned cs w w' :
  send_all cs w = (Returned tt, w') ->
  w_calls w' = (w_calls w ++ cs)%list /\
  w_graph w' = upsert_all cs (w_graph w).
Proof.
  revert w. induction cs as [|c cs IH]; intros w.
  - cbn. intros [= <-]. now rewrite app_nil_r.
  - cbn [send_all]. unfold bindS.
    pose proof (kg_request_calls c w) as Hc.
    destruct (kg_request c w) as [[[]|e] w1] eqn:E; [|discriminate].
    intros H. destruct (IH _ H) as [H1 H2].
    apply kg_request_Returned in E as [Eg _]. cbn [snd] in Hc.
    rewrite H1, Hc, <- app_assoc, H2, Eg. auto.
Qed.

Lemma send_all_no_faults cs w :
  w_faults w = [] ->
  send_all cs w =
  (Returned tt,
   {| w_graph := upsert_all cs (w_graph w);
      w_calls := (w_calls w ++ cs)%list;
      w_faults := [];
      w_clock := w_clock w;
      w_lastSyncTime := w_lastSyncTime w |}).
Proof.
  revert w. induction cs as [|c cs IH]; intros w Hw.
  - cbn. rewrite app_nil_r. unfold ret. destruct w; cbn in *. now subst.
  - cbn [send_all]. unfold bindS. rewrite (kg_request_no_faults c w Hw).
    rewrite IH by reflexivity. cbn. now rewrite <- app_assoc.
Qed.

Lemma send_all_app cs1 cs2 w :
  send_all (cs1 ++ cs2) w = bindS (send_all cs1) (fun _ => send_all cs2) w.
Proof.
  revert w. induction cs1 as [|c cs1 IH]; intros w; [reflexivity|].
  cbn [app send_all]. unfold bindS.
  destruct (kg_request c w) as [[[]|e] w1]; [|reflexivity].
  rewrite IH. reflexivity.
Qed.

Lemma bindS_ext {A B} (m m' : Sync A) (k k' : A -> Sync B) w :
  m w = m' w -> (forall a w', k a w' = k' a w') ->
  bindS m k w = bindS m' k' w.
Proof.
  intros Hm Hk. unfold bindS. rewrite Hm.
  destruct (m' w) as [[a|e] w1]; [apply Hk|reflexivity].
Qed.

(** **** The loop *)

Section SyncFacts.
Variable generateText : string -> outcome string.
Variable JSON_parse : string -> outcome ParsedJson.
Variable initialize : outcome unit.
Variable retrieveMemories : string -> nat -> outcome (list Memory).

Abbreviation processMemory := (processMemory generateText JSON_parse).
Abbreviation syncLoop := (syncLoop generateText JSON_parse).
Abbreviation item_outcomes := (item_outcomes generateText JSON_parse).
Abbreviation extracted := (extracted generateText JSON_parse).
Abbreviation syncKnowledgeGraph :=
  (syncKnowledgeGraph generateText JSON_parse initialize retrieveMemories).

Lemma for_of_entities memoryNode ents w :
  for_of ents (fun entity =>
    do! _ := addNode (entityNodeOf entity) in
    addRelationship (memToEntityOf memoryNode entity)) w =
  send_all (flat_map (entity_calls memoryNode) ents) w.
Proof.
  revert w. induction ents as [|entity ents IH]; intros w; [reflexivity|].
  cbn [for_of flat_map entity_calls app send_all].
  unfold bindS, addNode, addRelationship.
  destruct (kg_request _ w) as [[[]|e] w1]; [|reflexivity].
  destruct (kg_request _ w1) as [[[]|e] w2]; [|reflexivity].
  apply IH.
Qed.

Lemma for_of_relationships rels w :
  for_of rels (fun rel => addRelationship (relationshipOf rel)) w =
  send_all (map (fun rel => AddRelationship (relationshipOf rel)) rels) w.
Proof.
  revert w. induction rels as [|rel rels IH]; intros w; [reflexivity|].
  cbn [for_of map send_all]. unfold bindS, addRelationship.
  destruct (kg_request _ w) as [[[]|e] w1]; [|reflexivity].
  apply IH.
Qed.

(** Processing a memory sends the requests of [memory_calls], in order, up
    to the first that fails. *)
Lemma processMemory_send_all memory w :
  processMemory memory w =
  send_all (memory_calls memory (w_clock w) (extracted memory)) w.
Proof.
  unfold SyncService.processMemory, SyncService.extracted.
  destruct (extractKnowledge_returns generateText JSON_parse
              (memory_text memory)) as [extraction ->].
  unfold memory_calls. cbn [send_all].
  set (memoryNode := memoryNodeOf memory (w_clock w)).
  change (bindS (addNode memoryNode)
            (fun _ =>
               do! _ :=
                 for_of (entities extraction) (fun entity =>
                   do! _ := addNode (entityNodeOf entity) in
                   addRelationship (memToEntityOf memoryNode entity)) in
               for_of (relationships extraction) (fun rel =>
                 addRelationship (relationshipOf rel))) w =
          bindS (kg_request (AddNode memoryNode))
            (fun _ =>
               send_all
                 (flat_map (entity_calls memoryNode) (entities extraction) ++
                  map (fun rel => AddRelationship (relationshipOf rel))
                      (relationships extraction))) w).
  apply bindS_ext; [reflexivity|]. intros _ w1.
  rewrite send_all_app.
  apply bindS_ext; [apply for_of_entities|]. intros _ w2.
  apply for_of_relationships.
Qed.

Lemma processMemory_sent memory w :
  exists rest,
    w_calls (snd (processMemory memory w)) =
      (w_calls w ++ AddNode (memoryNodeOf memory (w_clock w)) :: rest)%list /\
    w_clock (snd (processMemory memory w)) = w_clock w.
Proof.
  rewrite processMemory_send_all.
  destruct (send_all_sent (memory_calls memory (w_clock w) (extracted memory)) w)
    as (k & Hk & Hpos & _ & Ht & _).
  unfold memory_calls in *.
  destruct k as [|k]; [exfalso; specialize (Hpos ltac:(discriminate)); lia|].
  cbn [firstn] in Hk. eauto.
Qed.

Lemma successes_failures outcomes :
  (successes outcomes + failures outcomes = length outcomes)%nat.
Proof.
  unfold successes, failures.
  induction outcomes as [|[a|e] outs IH];
    cbn [List.filter is_failure negb length]; lia.
Qed.

Lemma syncLoop_spec memories result w :
  let outcomes := item_outcomes memories w in
  let result' := fst (syncLoop memories result w) in
  let w' := snd (syncLoop memories result w) in
  length outcomes = length memories /\
  processed result' = (processed result + successes outcomes)%nat /\
  errors result' = (errors result + failures outcomes)%nat /\
  skipped result' = skipped result /\
  w_clock w' = w_clock w /\
  (forall c, In c (w_calls w) -> In c (w_calls w')) /\
  (forall memory, In memory memories ->
     In (AddNode (memoryNodeOf memory (w_clock w))) (w_calls w')).
Proof.
  revert result w. induction memories as [|memory rest IH]; intros result w.
  - cbn. unfold successes, failures. cbn. repeat split; auto; lia.
  - cbn [SyncService.syncLoop SyncService.item_outcomes].
    destruct (processMemory_sent memory w) as (sent & Hc & Ht).
    destruct (processMemory memory w) as [[[]|e] w1]; cbn [snd] in Hc, Ht;
      match goal with
      | |- context [SyncService.syncLoop _ _ rest ?r w1] =>
          destruct (IH r w1) as (Hlen & Hp & He & Hs & Hclock & Hmono & Hnode)
      end;
      cbn zeta in *; cbn [processed errors skipped] in *;
      unfold successes, failures in *; cbn [List.filter is_failure negb length].
    all: repeat split; try lia; try congruence.
    all: try (intros c Hin; apply Hmono; rewrite Hc; apply in_or_app; now left).
    all: intros m [<-|Hin];
      [ apply Hmono; rewrite Hc; apply in_or_app; right; now left
      | rewrite <- Ht; now apply Hnode ].
Qed.


(** C7 (as amended).  For a memory that is processed without failure the
    requests sent are exactly those of [memory_calls]: the memory node,
    then for every extracted entity its node and a MENTIONS relationship
    from the memory node to it, then the extracted relationships.  The
    tags of the memory play no part: with other tags the same requests
    are sent, so no Tag node and no HAS_TAG relationship is derived from
    them. *)
Theorem processMemory_requests (memory : Memory) (w w' : World) :
  processMemory memory w = (Returned tt, w') ->
  w_calls w' =
    (w_calls w ++ memory_calls memory (w_clock w) (extracted memory))%list /\
  w_graph w' =
    upsert_all (memory_calls memory (w_clock w) (extracted memory)) (w_graph w) /\
  (forall entity, In entity (entities (extracted memory)) ->
     In (AddNode (entityNodeOf entity)) (w_calls w') /\
     In (AddRelationship
           {| krel_id :=
                "rel-" ++ "Memory_" ++ memory_id memory ++ "-mentions-" ++
                ent_id entity;
              krel_sourceNodeId := "Memory_" ++ memory_id memory;
              krel_targetNodeId := ent_id entity;
              krel_type := "MENTIONS";
              krel_properties := [] |})
        (w_calls w')) /\
  (forall tags w0,
     processMemory (with_tags tags memory) w0 = processMemory memory w0).
Proof.
  intros H. rewrite processMemory_send_all in H.
  apply send_all_Returned in H as [Hc Hg]. split; [exact Hc|].
  split; [exact Hg|]. split.
  - intros entity Hin. rewrite Hc. unfold memory_calls.
    split; apply in_or_app; right; right; apply in_or_app; left;
      apply in_flat_map; exists entity; (split; [exact Hin|]).
    + now left.
    + right. now left.
  - intros tags w0. reflexivity.
Qed.

(** **** Fault-free runs *)

Abbreviation run_calls := (run_calls generateText JSON_parse).

Lemma syncLoop_no_faults memories result w :
  w_faults w = [] ->
  syncLoop memories result w =
  ({| processed := (processed result + length memories)%nat;
      errors := errors result;
      skipped := skipped result |},
   {| w_graph := upsert_all (run_calls memories (w_clock w)) (w_graph w);
      w_calls := (w_calls w ++ run_calls memories (w_clock w))%list;
      w_faults := [];
      w_clock := w_clock w;
      w_lastSyncTime := w_lastSyncTime w |}).
Proof.
  revert result w. induction memories as [|memory rest IH]; intros result w Hw.
  - cbn. rewrite app_nil_r, Nat.add_0_r.
    destruct result, w; cbn in *. now subst.
  - cbn [SyncService.syncLoop]. rewrite processMemory_send_all.
    rewrite (send_all_no_faults _ w Hw). rewrite IH by reflexivity.
    cbn [processed errors skipped w_graph w_calls w_clock w_lastSyncTime
         length SyncService.run_calls flat_map].
    unfold upsert_all. rewrite fold_left_app, <- app_assoc.
    f_equal. f_equal. lia.
Qed.

Lemma syncKnowledgeGraph_no_faults options w :
  w_faults w = [] ->
  (exists e, syncKnowledgeGraph options w = (Thrown e, w)) \/
  (exists memories,
     retrieveMemories EmptyString 100 = Returned memories /\
     syncKnowledgeGraph options w =
     (Returned {| processed := length memories; errors := 0; skipped := 0 |},
      {| w_graph := upsert_all (run_calls memories (w_clock w)) (w_graph w);
         w_calls := (w_calls w ++ run_calls memories (w_clock w))%list;
         w_faults := [];
         w_clock := w_clock w;
         w_lastSyncTime := w_clock w |})).
Proof.
  intros Hw. unfold SyncService.syncKnowledgeGraph.
  destruct initialize; [|left; eauto].
  destruct (retrieveMemories _ _) as [memories|]; [|left; eauto].
  right. exists memories. split; [reflexivity|].
  now rewrite (syncLoop_no_faults memories _ w Hw).
Qed.

(** The keys of the requests of a memory do not depend on the time. *)
Lemma memory_calls_keys memory now extraction :
  map call_key (memory_calls memory now extraction) =
  memory_keys (memory_id memory) extraction.
Proof.
  unfold memory_calls, memory_keys. cbn [map call_key node_id memoryNodeOf].
  f_equal. rewrite map_app, map_map. f_equal.
  induction (entities extraction) as [|entity ents IH]; [reflexivity|].
  cbn [flat_map entity_calls app map]. now rewrite IH.
Qed.

Lemma run_calls_keys memories now now' :
  map call_key (run_calls memories now) =
  map call_key (run_calls memories now').
Proof.
  unfold SyncService.run_calls.
  induction memories as [|memory rest IH]; [reflexivity|].
  cbn [flat_map]. rewrite !map_app, IH, !memory_calls_keys. reflexivity.
Qed.
End SyncFacts.

Lemma upsert_all_nodes cs g (k : string) :
  k ∈ dom (kg_nodes (upsert_all cs g)) <->
  k ∈ dom (kg_nodes g) \/ In (NodeKey k) (map call_key cs).
Proof.
  unfold upsert_all. revert g. induction cs as [|c cs IH]; intros g.
  - cbn. tauto.
  - cbn [fold_left map]. rewrite IH. destruct c as [node|rel]; cbn.
    + rewrite dom_insert. rewrite elem_of_union, elem_of_singleton.
      split; [intros [[->|?]|?]|intros [?|[[= ->]|?]]]; auto.
    + split; [intros [?|?]|intros [?|[?|?]]]; auto. discriminate.
Qed.

Lemma upsert_all_relationships cs g (k : string) :
  k ∈ dom (kg_relationships (upsert_all cs g)) <->
  k ∈ dom (kg_relationships g) \/ In (RelationshipKey k) (map call_key cs).
Proof.
  unfold upsert_all. revert g. induction cs as [|c cs IH]; intros g.
  - cbn. tauto.
  - cbn [fold_left map]. rewrite IH. destruct c as [node|rel]; cbn.
    + split; [intros [?|?]|intros [?|[?|?]]]; auto. discriminate.
    + rewrite dom_insert. rewrite elem_of_union, elem_of_singleton.
      split; [intros [[->|?]|?]|intros [?|[[= ->]|?]]]; auto.
Qed.

Lemma issued_app w cs w' :
  w_calls w' = (w_calls w ++ cs)%list -> issued w w' = cs.
Proof.
  intros H. unfold issued. rewrite H.
  now rewrite drop_app_length.
Qed.

(** A failure of the extractor is not a failure of the memory: the
    extraction is empty, the memory node is upserted and the memory counts
    as processed. *)
Lemma processMemory_extractor_failure
    generateText JSON_parse memory w e :
  generateText (prompt (memory_text memory)) = Thrown e ->
  w_faults w = [] ->
  fst (processMemory generateText JSON_parse memory w) = Returned tt /\
  issued w (snd (processMemory generateText JSON_parse memory w)) =
    [AddNode (memoryNodeOf memory (w_clock w))].
Proof.
  intros He Hw. rewrite processMemory_send_all.
  assert (Ex : extracted generateText JSON_parse memory = emptyExtraction).
  { unfold extracted, extractKnowledge. now rewrite He. }
  rewrite Ex, (send_all_no_faults _ w Hw). split; [reflexivity|].
  now apply issued_app.
Qed.

Section Idempotence.
Variable generateText : string -> outcome string.
Variable JSON_parse : string -> outcome ParsedJson.
Variable initialize : outcome unit.
Variable retrieveMemories : string -> nat -> outcome (list Memory).

Abbreviation syncKnowledgeGraph :=
  (syncKnowledgeGraph generateText JSON_parse initialize retrieveMemories).

Lemma issued_nothing w now : issued (at_time now w) (at_time now w) = [].
Proof. unfold issued. apply drop_all. Qed.

(** C6.  A second run over the same memories, with the same extraction,
    at any later time and with any options, sends requests under exactly
    the keys of the first run, and creates nothing: the graph has the same
    node ids and the same relationship ids, hence as many nodes and
    relationships, as after the first run.  The key of every request is a
    function of the memory id, the entity ids and the source, type and
    target of the relationships ([memory_keys]). *)
Theorem syncKnowledgeGraph_twice
    (options options' : SyncOptions) (later : Z) (w0 : World) :
  w_faults w0 = [] ->
  let w1 := snd (syncKnowledgeGraph options w0) in
  let w2 := snd (syncKnowledgeGraph options' (at_time later w1)) in
  map call_key (issued (at_time later w1) w2) = map call_key (issued w0 w1) /\
  dom (kg_nodes (w_graph w2)) = dom (kg_nodes (w_graph w1)) /\
  dom (kg_relationships (w_graph w2)) = dom (kg_relationships (w_graph w1)) /\
  size (kg_nodes (w_graph w2)) = size (kg_nodes (w_graph w1)) /\
  size (kg_relationships (w_graph w2)) = size (kg_relationships (w_graph w1)) /\
  (forall memory now extraction,
     map call_key (memory_calls memory now extraction) =
     memory_keys (memory_id memory) extraction).
Proof.
  intros Hw w1 w2.
  assert (Hkeys : map call_key (issued (at_time later w1) w2) =
                  map call_key (issued w0 w1) /\
                  dom (kg_nodes (w_graph w2)) = dom (kg_nodes (w_graph w1)) /\
                  dom (kg_relationships (w_graph w2)) =
                  dom (kg_relationships (w_graph w1))).
  { subst w1 w2. unfold SyncService.syncKnowledgeGraph.
    destruct initialize as [[]|e].
    2:{ cbn [snd]. repeat split. }
    destruct (retrieveMemories _ _) as [memories|e].
    2:{ cbn [snd]. repeat split. }
    rewrite (syncLoop_no_faults _ _ memories _ w0 Hw). cbn [snd].
    rewrite (syncLoop_no_faults _ _ memories _ (at_time later _)) by reflexivity.
    cbn [snd w_graph w_calls w_clock at_time].
    assert (Hk : map call_key (run_calls generateText JSON_parse memories later) =
                 map call_key (run_calls generateText JSON_parse memories (w_clock w0)))
      by apply run_calls_keys.
    split; [|split].
    - erewrite !issued_app; [exact Hk| |]; reflexivity.
    - apply set_eq. intros k. rewrite !upsert_all_nodes, Hk. tauto.
    - apply set_eq. intros k. rewrite !upsert_all_relationships, Hk. tauto. }
  destruct Hkeys as (Hk & Hn & Hr).
  repeat split; try assumption.
  - now rewrite <- !size_dom, Hn.
  - now rewrite <- !size_dom, Hr.
  - intros. apply memory_calls_keys.
Qed.
End Idempotence.

(** **** Upserts are idempotent *)

Lemma upsert_upsert_same c d g :
  call_key c = call_key d -> upsert d (upsert c g) = upsert d g.
Proof.
  destruct c as [n|r], d as [n'|r']; cbn; intros [= E]; f_equal.
  - rewrite E. apply insert_insert_eq.
  - rewrite E. apply insert_insert_eq.
Qed.

Lemma upsert_upsert_other c d g :
  call_key c <> call_key d -> upsert d (upsert c g) = upsert c (upsert d g).
Proof.
  destruct c as [n|r], d as [n'|r']; cbn; intros E; f_equal;
    try reflexivity; apply insert_insert_ne; congruence.
Qed.

(** A request wipes out what an earlier request under its key did. *)
Lemma upsert_all_overwrites c cs g :
  upsert c (upsert_all cs (upsert c g)) = upsert c (upsert_all cs g).
Proof.
  unfold upsert_all. revert g. induction cs as [|d cs IH]; intros g.
  - cbn. now apply upsert_upsert_same.
  - cbn [fold_left]. destruct (decide (call_key c = call_key d)) as [E|E].
    + now rewrite (upsert_upsert_same c d g E).
    + rewrite (upsert_upsert_other c d g E). apply IH.
Qed.

Lemma upsert_all_idempotent cs g :
  upsert_all cs (upsert_all cs g) = upsert_all cs g.
Proof.
  revert g. induction cs as [|c cs IH] using rev_ind; intros g; [reflexivity|].
  unfold upsert_all in *. rewrite !fold_left_app. cbn [fold_left].
  rewrite (upsert_all_overwrites c cs (fold_left _ cs g)).
  unfold upsert_all. now rewrite IH.
Qed.

Section SameGraph.
Variable generateText : string -> outcome string.
Variable JSON_parse : string -> outcome ParsedJson.
Variable initialize : outcome unit.
Variable retrieveMemories : string -> nat -> outcome (list Memory).

Lemma run_calls_timestamped memories now now' :
  (forall memory, In memory memories ->
     exists t, md_timestamp (memory_metadata memory) = Some t /\ t <> 0%Z) ->
  run_calls generateText JSON_parse memories now =
  run_calls generateText JSON_parse memories now'.
Proof.
  unfold run_calls. induction memories as [|memory rest IH]; [reflexivity|].
  intros Hts. cbn [flat_map].
  rewrite IH by (intros m Hm; apply Hts; now right). f_equal.
  destruct (Hts memory (or_introl eq_refl)) as (t & Et & Hnz).
  unfold memory_calls, memoryNodeOf. rewrite Et. cbn [or_Z].
  apply Z.eqb_neq in Hnz. now rewrite Hnz.
Qed.

(** When the second run happens at the time of the first, or every memory
    carries its timestamp, the second run leaves the graph as it is. *)
Lemma syncKnowledgeGraph_twice_same_graph options options' later w0 :
  w_faults w0 = [] ->
  (later = w_clock w0 \/
   forall memories memory,
     retrieveMemories EmptyString 100 = Returned memories ->
     In memory memories ->
     exists t, md_timestamp (memory_metadata memory) = Some t /\ t <> 0%Z) ->
  let sync := syncKnowledgeGraph generateText JSON_parse initialize
                retrieveMemories in
  w_graph (snd (sync options' (at_time later (snd (sync options w0))))) =
  w_graph (snd (sync options w0)).
Proof.
  intros Hw Htime sync. subst sync. unfold syncKnowledgeGraph.
  destruct initialize as [[]|e]; [|reflexivity].
  destruct (retrieveMemories _ _) as [memories|e] eqn:Er; [|reflexivity].
  rewrite (syncLoop_no_faults _ _ memories _ w0 Hw). cbn [snd].
  rewrite (syncLoop_no_faults _ _ memories _ (at_time later _)) by reflexivity.
  cbn [snd w_graph w_calls w_clock at_time].
  assert (E : run_calls generateText JSON_parse memories later =
              run_calls generateText JSON_parse memories (w_clock w0)).
  { destruct Htime as [->|Hts]; [reflexivity|].
    apply run_calls_timestamped. intros memory Hin.
    now apply (Hts memories). }
  rewrite E. apply upsert_all_idempotent.
Qed.
End SameGraph.

(** **** Runs on the data of the tests *)


(** The first memory fails, the second is processed all the same. *)
Example syncKnowledgeGraph_one_failure :
  fst (syncKnowledgeGraph fencedCompletion parseBraces (Returned tt)
         retrieveBoth incremental flakyWorld) =
  Returned {| processed := 1; errors := 1; skipped := 0 |}.
Proof. reflexivity. Qed.

Lemma processMemory_requests_witness :
  In (AddRelationship
        {| krel_id := "rel-Memory_mem_7-mentions-ada";
           krel_sourceNodeId := "Memory_mem_7";
           krel_targetNodeId := "ada";
           krel_type := "MENTIONS";
           krel_properties := [] |})
     (w_calls (snd (processMemory adaCompletion adaParse taggedMemory
                      freshWorld))).
Proof.
  destruct (processMemory_requests adaCompletion adaParse taggedMemory
              freshWorld
              (snd (processMemory adaCompletion adaParse taggedMemory
                      freshWorld))
              eq_refl)
    as (_ & _ & Hmentions & _).
  apply (Hmentions ada). left. reflexivity.
Defined.

(** C7 as stated fails: a memory with three tags is processed, and the run
    sends one request, for the memory node; no Tag node and no HAS_TAG
    relationship (no relationship at all) reaches the graph. *)
Lemma syncKnowledgeGraph_no_tag_edges :
  md_tags (memory_metadata taggedMemory) = ["tag1"; "tag2"; "tag3"] /\
  fst (syncKnowledgeGraph fencedCompletion parseBraces (Returned tt)
         retrieveTagged incremental freshWorld) =
    Returned {| processed := 1; errors := 0; skipped := 0 |} /\
  w_calls (snd (syncKnowledgeGraph fencedCompletion parseBraces (Returned tt)
                  retrieveTagged incremental freshWorld)) =
    [AddNode (memoryNodeOf taggedMemory 1700000001000)] /\
  kg_relationships
    (w_graph (snd (syncKnowledgeGraph fencedCompletion parseBraces
                     (Returned tt) retrieveTagged incremental freshWorld))) = ∅.
Proof. repeat split. Qed.

Lemma syncKnowledgeGraph_twice_witness :
  dom (kg_nodes (w_graph
    (snd (syncKnowledgeGraph adaCompletion adaParse (Returned tt) retrieveBoth
            incremental
            (at_time 1700000002000
               (snd (syncKnowledgeGraph adaCompletion adaParse (Returned tt)
                       retrieveBoth incremental freshWorld))))))) =
  dom (kg_nodes (w_graph
    (snd (syncKnowledgeGraph adaCompletion adaParse (Returned tt) retrieveBoth
            incremental freshWorld)))).
Proof.
  apply (syncKnowledgeGraph_twice adaCompletion adaParse (Returned tt)
           retrieveBoth incremental incremental 1700000002000 freshWorld).
  reflexivity.
Defined.

(** The options are never read. *)
Lemma syncKnowledgeGraph_ignores_options
    generateText JSON_parse initialize retrieveMemories options options' w :
  syncKnowledgeGraph generateText JSON_parse initialize retrieveMemories
    options w =
  syncKnowledgeGraph generateText JSON_parse initialize retrieveMemories
    options' w.
Proof. reflexivity. Qed.

(** C4 (the code at the failing input).  The store holds two memories.  A
    first run processes both.  A second run, without [forceFullResync],
    over the unchanged store processes both again and sends the requests
    for both again; it is the run that [forceFullResync] gives. *)
Theorem syncKnowledgeGraph_resyncs_synced :
  let run options w :=
    syncKnowledgeGraph fencedCompletion parseBraces (Returned tt)
      retrieveBoth options w in
  let synced := snd (run incremental freshWorld) in
  fst (run incremental freshWorld) =
    Returned {| processed := 2; errors := 0; skipped := 0 |} /\
  fst (run incremental synced) =
    Returned {| processed := 2; errors := 0; skipped := 0 |} /\
  issued synced (snd (run incremental synced)) =
    [ AddNode (memoryNodeOf taggedMemory 1700000001000);
      AddNode (memoryNodeOf updatedMemory 1700000001000) ] /\
  run incremental synced = run fullResync synced.
Proof.
  cbv zeta. split; [reflexivity|]. split; [vm_compute; reflexivity|].
  split; [vm_compute; reflexivity|].
  apply syncKnowledgeGraph_ignores_options.
Qed.

End SyncServiceFacts.

(** *** The MCP server: more on the tools *)

Module McpToolsFacts.
Import McpServer McpTools Scenario Samples JSFacts McpServerFacts.

(** **** save_memory: the summary *)

Lemma string_length_append (s t : string) :
  String.length (s ++ t) = (String.length s + String.length t)%nat.
Proof.
  induction s as [|c s IH]; [reflexivity|].
  change (String c s ++ t) with (String c (s ++ t)). cbn [String.length].
  now rewrite IH.
Qed.

Lemma string_append_empty (s : string) : s ++ EmptyString = s.
Proof.
  induction s as [|c s IH]; [reflexivity|].
  change (String c s ++ EmptyString) with (String c (s ++ EmptyString)).
  now rewrite IH.
Qed.

Lemma string_slice0_all (n : nat) (s : string) :
  (String.length s <= n)%nat -> string_slice0 n s = s.
Proof.
  unfold string_slice0. revert n. induction s as [|c s IH]; intros n Hn.
  - now destruct n.
  - destruct n as [|n]; cbn in *; [lia|]. rewrite IH; [reflexivity|lia].
Qed.

Lemma string_slice0_length (n : nat) (s : string) :
  String.length (string_slice0 n s) = Nat.min n (String.length s).
Proof.
  unfold string_slice0. revert n. induction s as [|c s IH]; intros n.
  - now destruct n.
  - destruct n as [|n]; cbn; [reflexivity|]. now rewrite IH.
Qed.

Lemma string_slice0_prefix (n : nat) (s : string) :
  exists rest, s = string_slice0 n s ++ rest.
Proof.
  unfold string_slice0. revert n. induction s as [|c s IH]; intros n.
  - exists EmptyString. now destruct n.
  - destruct n as [|n].
    + now exists (String c s).
    + destruct (IH n) as [rest E]. exists rest.
      change (String c s = String c (substring 0 n s ++ rest)).
      now rewrite <- E.
Qed.

Section SaveFacts.
Variable saveMemory : SaveMemoryRequest -> outcome string.

(** X1.  The summary of a successful [save_memory] response shows the
    content as given when it has at most 100 characters, and otherwise its
    first 100 characters followed by three dots, 103 characters in all; it
    is never longer than that.  The importance and the tags it shows are
    those handed to the store. *)
Theorem save_memory_summary (a : SaveMemoryArgs) (summary : SaveSummary) :
  response_summary (save_memory saveMemory a) = Some summary ->
  ((String.length (sa_content a) <= 100)%nat ->
     ss_content summary = sa_content a) /\
  ((100 < String.length (sa_content a))%nat ->
     ss_content summary = string_slice0 100 (sa_content a) ++ "..." /\
     String.length (ss_content summary) = 103%nat) /\
  (String.length (ss_content summary) <= 103)%nat /\
  (exists rest, sa_content a = string_slice0 100 (sa_content a) ++ rest) /\
  ss_importance summary = sm_importance (save_request a) /\
  ss_tags summary = sm_tags (save_request a).
Proof.
  unfold save_memory, response_summary.
  destruct (saveMemory (save_request a)) as [id|e]; cbn [tr_result];
    [|discriminate].
  intros [= <-]. cbn [ss_content ss_importance ss_tags].
  pose proof (string_slice0_length 100 (sa_content a)) as Hlen.
  destruct (100 <? String.length (sa_content a))%nat eqn:E.
  - apply Nat.ltb_lt in E. repeat split; try reflexivity; try lia.
    + rewrite string_length_append, Hlen. cbn [String.length]. lia.
    + rewrite string_length_append, Hlen. cbn [String.length]. lia.
    + apply string_slice0_prefix.
  - apply Nat.ltb_ge in E. repeat split; try reflexivity; try lia.
    + intros _. rewrite string_slice0_all by exact E.
      apply string_append_empty.
    + rewrite string_length_append, Hlen. cbn [String.length]. lia.
    + apply string_slice0_prefix.
Qed.
End SaveFacts.

Lemma save_memory_summary_witness :
  exists summary,
    response_summary (save_memory storeAsFirst (note None)) = Some summary /\
    ss_content summary = "Python is great for data science".
Proof.
  eexists. split; [reflexivity|].
  apply (proj1 (save_memory_summary storeAsFirst (note None) _ eq_refl)).
  cbn. lia.
Defined.

(** **** Importance: save and update *)

(** X2.  Normalising an importance is idempotent: the importance
    [save_memory] hands to the store for an accepted request lies in the
    range the schemas accept, and normalising it again changes nothing. *)
Theorem safeImportance_idempotent (importance : option Q) :
  importance_schema importance = true ->
  importance_schema (Some (safeImportance importance)) = true /\
  safeImportance (Some (safeImportance importance)) = safeImportance importance.
Proof.
  intros Hs.
  assert (Hr : (1 <= safeImportance importance)%Q /\
               (safeImportance importance <= 10)%Q).
  { destruct (safeImportance_cases _ Hs)
      as [[E _] | [(v & _ & _ & _ & E & Hr) | (v & _ & H1 & H10 & E)]];
      rewrite E.
    - split; discriminate.
    - split.
      + change 1%Q with (inject_Z 1). rewrite <- Zle_Qle. apply Hr.
      + change 10%Q with (inject_Z 10). rewrite <- Zle_Qle.
        apply Z.le_trans with 9%Z; [apply Hr|discriminate].
    - now split. }
  destruct Hr as [H1 H10]. set (p := safeImportance importance) in *.
  split.
  - cbn [importance_schema]. apply andb_true_iff.
    split; apply Qle_bool_iff; [lra|exact H10].
  - unfold safeImportance at 1.
    assert (Hnz : ~ (p == 0)%Q) by (intros Hz; rewrite Hz in H1; lra).
    rewrite (or_number_nonzero p 5 Hnz).
    pose proof (proj2 (Qlt_bool_false_iff _ _) H1) as Hb.
    now rewrite Hb, andb_false_r.
Qed.

Lemma safeImportance_idempotent_witness :
  safeImportance (Some (safeImportance (Some (7 # 10)))) =
  safeImportance (Some (7 # 10)).
Proof.
  apply (proj2 (safeImportance_idempotent (Some (7 # 10)) eq_refl)).
Defined.

(** X3.  [update_memory] accepts an importance exactly when [save_memory]
    accepts it and would store it unchanged: the tenfold rescaling of
    [save_memory] never applies to an importance that [update_memory]
    lets through. *)
Theorem update_importance_fixed_by_save (a : UpdateArgs) (v : Q) :
  u_importance a = Some v ->
  (update_schema a = true <->
   importance_schema (Some v) = true /\ safeImportance (Some v) = v).
Proof.
  intros Ev. unfold update_schema. rewrite Ev. cbn [in_range]. split.
  - intros [H1 H10]%andb_true_iff. apply Qle_bool_iff in H1, H10. split.
    + cbn [importance_schema]. apply andb_true_iff.
      split; apply Qle_bool_iff; [lra|exact H10].
    + unfold safeImportance.
      assert (Hnz : ~ (v == 0)%Q) by (intros Hz; rewrite Hz in H1; lra).
      rewrite (or_number_nonzero v 5 Hnz).
      pose proof (proj2 (Qlt_bool_false_iff _ _) H1) as Hb.
      now rewrite Hb, andb_false_r.
  - intros [Hs E].
    destruct (safeImportance_cases _ Hs)
      as [[E5 Hz] | [(w & [= <-] & H0 & H1 & Ew & Hr) | (w & [= <-] & H1 & H10 & _)]].
    + destruct Hz as [?|(w & [= <-] & Hz)]; [discriminate|].
      rewrite E in E5. rewrite E5 in Hz. discriminate.
    + exfalso. rewrite E in Ew. rewrite Ew in H1.
      change 1%Q with (inject_Z 1) in H1. rewrite <- Zlt_Qlt in H1.
      destruct Hr as [Hr _]. apply (Z.lt_irrefl 1). eapply Z.le_lt_trans; eauto.
    + apply andb_true_iff. split; now apply Qle_bool_iff.
Qed.

Lemma update_importance_fixed_by_save_witness :
  importance_schema (Some 7%Q) = true /\ safeImportance (Some 7%Q) = 7%Q.
Proof.
  apply (proj1 (update_importance_fixed_by_save reweigh 7 eq_refl)).
  reflexivity.
Defined.

(** **** search_memories: the page and its navigation *)

Lemma ceil_div_lt (p total size : nat) :
  (1 <= size)%nat ->
  ((p <? Math_ceil_div total size)%nat = true <-> (p * size < total)%nat).
Proof.
  intros Hs. unfold Math_ceil_div. destruct size as [|k]; [lia|].
  set (size := S k) in *. rewrite Nat.ltb_lt.
  pose proof (Nat.div_mod_eq (total + size - 1) size) as Hd.
  pose proof (Nat.mod_upper_bound (total + size - 1) size ltac:(lia)) as Hm.
  set (q := ((total + size - 1) / size)%nat) in *.
  set (r := ((total + size - 1) mod size)%nat) in *.
  split; intros H; nia.
Qed.

Lemma ceil_div_covers (total size : nat) :
  (1 <= size)%nat ->
  (total <= Math_ceil_div total size * size)%nat /\
  (Math_ceil_div total size * size < total + size)%nat.
Proof.
  intros Hs. unfold Math_ceil_div. destruct size as [|k]; [lia|].
  set (size := S k) in *.
  pose proof (Nat.div_mod_eq (total + size - 1) size) as Hd.
  pose proof (Nat.mod_upper_bound (total + size - 1) size ltac:(lia)) as Hm.
  set (q := ((total + size - 1) / size)%nat) in *.
  set (r := ((total + size - 1) mod size)%nat) in *.
  split; nia.
Qed.

Lemma or_nat_pos (x : option nat) (d : nat) :
  (1 <= d)%nat -> (1 <= or_nat x d)%nat.
Proof. intros Hd. destruct x as [[|n]|]; cbn; lia. Qed.

Lemma slice_length {A} (start size : nat) (l : list A) :
  length (slice start (start + size) l) = Nat.min size (length l - start).
Proof.
  unfold slice. replace (start + size - start)%nat with size by lia.
  now rewrite length_take, length_drop.
Qed.

Section SearchViaFacts.
Variable searchMemories :
  string -> SearchOptions -> outcome (list MemorySearchResult).



End SearchViaFacts.




(** The handler over the search of the specification is the handler over
    any service, at that service. *)
Lemma search_memories_is_via fetchCandidates finalScore a :
  search_memories fetchCandidates finalScore a =
  search_memories_via (searchMemories fetchCandidates finalScore) a.
Proof. reflexivity. Qed.

(** **** Scores and averages rounded to two decimals *)

Lemma Qfloor_unique (x : Q) (k : Z) :
  (inject_Z k <= x)%Q -> (x < inject_Z (k + 1))%Q -> Qfloor x = k.
Proof.
  intros Hlo Hhi.
  assert (H1 : (k <= Qfloor x)%Z).
  { rewrite <- (Qfloor_Z k). now apply Qfloor_resp_le. }
  assert (H2 : (Qfloor x < k + 1)%Z).
  { rewrite Zlt_Qlt. eapply Qle_lt_trans; [apply Qfloor_le|exact Hhi]. }
  lia.
Qed.

Lemma reported_score_upper (s : Q) : (reported_score s <= s + (1 # 200))%Q.
Proof.
  unfold reported_score, Math_round.
  pose proof (Qfloor_le (s * 100 + (1 # 2))) as H.
  set (f := inject_Z (Qfloor (s * 100 + (1 # 2)))) in *.
  apply Qle_shift_div_r; [reflexivity|]. lra.
Qed.

Lemma reported_score_monotone (s1 s2 : Q) :
  (s1 <= s2)%Q -> (reported_score s1 <= reported_score s2)%Q.
Proof.
  intros H. unfold reported_score, Math_round, Qdiv.
  apply Qmult_le_compat_r; [|discriminate].
  rewrite <- Zle_Qle. apply Qfloor_resp_le. lra.
Qed.

Lemma reported_score_grid_point (k : Z) :
  reported_score (inject_Z k / 100) = (inject_Z k / 100)%Q.
Proof.
  unfold reported_score, Math_round. f_equal. f_equal.
  apply Qfloor_unique.
  - set (x := inject_Z k). field_simplify. lra.
  - rewrite inject_Z_plus. change (inject_Z 1) with 1%Q.
    set (x := inject_Z k). field_simplify. lra.
Qed.




End McpToolsFacts.

(** *** Entity extraction: more on cleaning the completion *)

Module CleaningFacts.
Import LlmService Scenario LlmServiceFacts.

(** **** Cleaning a completion that has no fence *)

Lemma remove_fences_plain_text s :
  has_fence s = false -> remove_fences s = s.
Proof.
  induction s as [|a tl IH]; [reflexivity|]. intros H.
  pose proof (has_fence_tail _ _ H) as Htl.
  rewrite has_fence_cons in H. apply orb_false_iff in H as [H _].
  rewrite (remove_fences_cons _ _ H). now rewrite IH.
Qed.

Lemma remove_json_fences_step a tl :
  is_backtick a && starts_2 tl = false ->
  remove_json_fences (String a tl) = String a (remove_json_fences tl).
Proof.
  intros H. destruct tl as [|b [|c [|d [|e [|f [|g rest]]]]]]; try reflexivity.
  assert (E : is_json_fence a b c d e f g = false).
  { unfold is_json_fence. cbn [starts_2] in H.
    destruct (is_backtick a), (is_backtick b), (is_backtick c);
      try reflexivity; discriminate. }
  cbn [remove_json_fences]. rewrite E. reflexivity.
Qed.

Lemma remove_json_fences_plain_text s :
  has_fence s = false -> remove_json_fences s = s.
Proof.
  induction s as [|a tl IH]; [reflexivity|]. intros H.
  pose proof (has_fence_tail _ _ H) as Htl.
  rewrite has_fence_cons in H. apply orb_false_iff in H as [H _].
  rewrite (remove_json_fences_step _ _ H). now rewrite IH.
Qed.

Lemma trimStart_starts s :
  match trimStart s with
  | String c _ => is_space c = false
  | EmptyString => True
  end.
Proof.
  induction s as [|c rest IH]; [exact I|]. cbn [trimStart].
  destruct (is_space c) eqn:E; [exact IH|exact E].
Qed.

Lemma trimEnd_idempotent s : trimEnd (trimEnd s) = trimEnd s.
Proof.
  induction s as [|c rest IH]; [reflexivity|]. cbn [trimEnd].
  destruct (trimEnd rest) as [|k kept] eqn:E.
  - destruct (is_space c) eqn:Hc; [reflexivity|].
    cbn [trimEnd]. now rewrite Hc.
  - change (trimEnd (String c (String k kept))) with
      (match trimEnd (String k kept) with
       | EmptyString => if is_space c then EmptyString else String c EmptyString
       | kept' => String c kept'
       end).
    rewrite IH. reflexivity.
Qed.

Lemma trimStart_trimEnd s :
  trimStart s = s -> trimStart (trimEnd s) = trimEnd s.
Proof.
  intros Hs. pose proof (trimStart_starts s) as H. rewrite Hs in H.
  destruct s as [|c rest]; [reflexivity|]. cbn [trimEnd].
  destruct (trimEnd rest); [rewrite H|]; cbn [trimStart]; now rewrite H.
Qed.

Lemma trimStart_idempotent s : trimStart (trimStart s) = trimStart s.
Proof.
  induction s as [|c rest IH]; [reflexivity|]. cbn [trimStart].
  destruct (is_space c) eqn:E; [exact IH|]. cbn [trimStart]. now rewrite E.
Qed.

Lemma trim_idempotent s : trim (trim s) = trim s.
Proof.
  unfold trim.
  rewrite (trimStart_trimEnd (trimStart s) (trimStart_idempotent s)).
  apply trimEnd_idempotent.
Qed.

Lemma trim_no_fence s : has_fence s = false -> has_fence (trim s) = false.
Proof. intros H. now apply trimEnd_no_fence, trimStart_no_fence. Qed.

(** **** Cleaning only removes characters *)

Lemma trimStart_length s : String.length (trimStart s) <= String.length s.
Proof.
  induction s as [|c rest IH]; [reflexivity|]. cbn [trimStart].
  destruct (is_space c); cbn [String.length]; lia.
Qed.

Lemma trimEnd_length s : String.length (trimEnd s) <= String.length s.
Proof.
  induction s as [|c rest IH]; [reflexivity|]. cbn [trimEnd].
  destruct (trimEnd rest) as [|k kept].
  - destruct (is_space c); cbn [String.length]; lia.
  - cbn [String.length] in *. lia.
Qed.

Lemma trim_length s : String.length (trim s) <= String.length s.
Proof.
  unfold trim. pose proof (trimEnd_length (trimStart s)).
  pose proof (trimStart_length s). lia.
Qed.

Lemma remove_json_fences_length_aux n : forall s,
  String.length s <= n ->
  String.length (remove_json_fences s) <= String.length s.
Proof.
  induction n as [|n IH]; intros s Hlen.
  - destruct s; [reflexivity|]. cbn [String.length] in Hlen. lia.
  - destruct s as [|a tl]; [reflexivity|].
    assert (Htl : String.length (remove_json_fences tl) <= String.length tl)
      by (apply IH; cbn [String.length] in Hlen; lia).
    destruct tl as [|b [|c [|d [|e [|f [|g rest]]]]]];
      try (cbn [remove_json_fences String.length] in *; lia).
    remember (String b (String c (String d (String e (String f (String g rest))))))
      as tl eqn:Etl.
    assert (Hstep : remove_json_fences (String a tl) =
      if is_json_fence a b c d e f g then
        match rest with
        | String m rest' =>
            if Ascii.eqb m newline then remove_json_fences rest'
            else remove_json_fences rest
        | EmptyString => EmptyString
        end
      else String a (remove_json_fences tl)) by (subst tl; reflexivity).
    rewrite Hstep. clear Hstep.
    assert (Hl : String.length (String a tl) = 7 + String.length rest)
      by (subst tl; reflexivity).
    rewrite Hl in *.
    destruct (is_json_fence a b c d e f g).
    + destruct rest as [|m rest']; [cbn [String.length]; lia|].
      destruct (Ascii.eqb m newline).
      * assert (String.length (remove_json_fences rest') <= String.length rest')
          by (apply IH; cbn [String.length] in Hlen; lia).
        cbn [String.length]. lia.
      * assert (String.length (remove_json_fences (String m rest')) <=
                String.length (String m rest'))
          by (apply IH; lia).
        lia.
    + cbn [String.length]. subst tl. cbn [String.length] in *. lia.
Qed.

Lemma remove_fences_length_aux n : forall s,
  String.length s <= n ->
  String.length (remove_fences s) <= String.length s.
Proof.
  induction n as [|n IH]; intros s Hlen.
  - destruct s; [reflexivity|]. cbn [String.length] in Hlen. lia.
  - destruct s as [|a tl]; [reflexivity|].
    assert (Htl : String.length (remove_fences tl) <= String.length tl)
      by (apply IH; cbn [String.length] in Hlen; lia).
    destruct (is_backtick a && starts_2 tl) eqn:E.
    + destruct tl as [|b [|c rest]];
        try (cbn in E; now rewrite andb_false_r in E).
      cbn [starts_2] in E. rewrite andb_assoc in E.
      rewrite (remove_fences_fence _ _ _ _ E).
      destruct rest as [|m rest']; [cbn [String.length]; lia|].
      destruct (Ascii.eqb m newline).
      * assert (String.length (remove_fences rest') <= String.length rest')
          by (apply IH; cbn [String.length] in Hlen; lia).
        cbn [String.length]. lia.
      * assert (String.length (remove_fences (String m rest')) <=
                String.length (String m rest'))
          by (apply IH; cbn [String.length] in *; lia).
        cbn [String.length] in *. lia.
    + rewrite (remove_fences_cons _ _ E). cbn [String.length]. lia.
Qed.

(** X9.  Cleaning a completion only removes characters.  A completion
    without three backticks in a row is only trimmed; the cleaned text is
    never longer than the completion; and cleaning a cleaned text changes
    nothing. *)
Theorem cleaned_without_fence (text : string) :
  (has_fence text = false -> cleaned text = trim text) /\
  (String.length (cleaned text) <= String.length text)%nat /\
  cleaned (cleaned text) = cleaned text.
Proof.
  assert (Hplain : forall t, has_fence t = false -> cleaned t = trim t).
  { intros t H. unfold cleaned.
    rewrite (remove_json_fences_plain_text _ (trim_no_fence _ H)).
    rewrite (remove_fences_plain_text _ (trim_no_fence _ H)).
    apply trim_idempotent. }
  split; [apply Hplain|]. split.
  - unfold cleaned.
    pose proof (trim_length (remove_fences (remove_json_fences (trim text)))).
    pose proof (remove_fences_length_aux _ (remove_json_fences (trim text))
                  (le_n _)).
    pose proof (remove_json_fences_length_aux _ (trim text) (le_n _)).
    pose proof (trim_length text). lia.
  - rewrite (Hplain _ (cleaned_no_fence text)).
    unfold cleaned. apply trim_idempotent.
Qed.

End CleaningFacts.

(** *** Knowledge-graph sync: failures, and the runner *)

Module SyncRunnerFacts.
Import LlmService SyncService SyncRunner Scenario Samples SyncServiceFacts.

(** **** Requests up to the first that fails *)

Lemma send_all_Thrown cs : forall w w' e,
  send_all cs w = (Thrown e, w') ->
  exists k,
    (1 <= k <= length cs)%nat /\
    w_calls w' = (w_calls w ++ firstn k cs)%list /\
    nth_error (w_faults w) (k - 1) = Some true /\
    (forall i, (i < k - 1)%nat -> nth_error (w_faults w) i <> Some true) /\
    w_lastSyncTime w' = w_lastSyncTime w.
Proof.
  induction cs as [|c rest IH]; intros w w' e H; [discriminate|].
  cbn [send_all] in H. unfold bindS in H.
  destruct (kg_request c w) as [[[]|e1] w1] eqn:E.
  - apply IH in H as (k & Hk & Hc & Hf & Hmin & Hl).
    pose proof (kg_request_calls c w) as Hc1.
    pose proof (kg_request_lastSyncTime c w) as Hl1.
    pose proof (kg_request_Returned c w w1 E) as [_ Hf1].
    rewrite E in Hc1, Hl1. cbn [snd] in Hc1, Hl1.
    exists (S k). cbn [length firstn]. split; [lia|].
    split; [rewrite Hc, Hc1, <- app_assoc; reflexivity|].
    unfold kg_request in E.
    destruct (w_faults w) as [|f fs] eqn:Ef.
    + rewrite Hf1 in Hf. cbn [tail] in Hf. destruct (k - 1)%nat; discriminate.
    + destruct f; [discriminate|]. rewrite Hf1 in Hf, Hmin. cbn [tail] in Hf, Hmin.
      replace (S k - 1)%nat with (S (k - 1)) by lia. cbn [nth_error].
      split; [exact Hf|]. split; [|congruence].
      intros [|i] Hi; cbn [nth_error]; [discriminate|]. apply Hmin. lia.
  - injection H as <- <-. exists 1%nat. cbn [length firstn].
    pose proof (kg_request_calls c w) as Hc1.
    pose proof (kg_request_lastSyncTime c w) as Hl1.
    rewrite E in Hc1, Hl1. cbn [snd] in Hc1, Hl1.
    split; [lia|]. split; [exact Hc1|]. split; [|split; [intros i Hi; lia|exact Hl1]].
    unfold kg_request in E. destruct (w_faults w) as [|[] fs]; try discriminate.
    reflexivity.
Qed.

Section FatalFacts.
Variable generateText : string -> outcome string.
Variable JSON_parse : string -> outcome ParsedJson.
Variable initialize : outcome unit.
Variable retrieveMemories : string -> nat -> outcome (list Memory).

Abbreviation syncKnowledgeGraph :=
  (syncKnowledgeGraph generateText JSON_parse initialize retrieveMemories).
Abbreviation processMemory := (processMemory generateText JSON_parse).
Abbreviation extracted := (extracted generateText JSON_parse).

(** X10.  A run throws exactly when the memory store fails to initialise
    or to hand over its memories, and then with the error of the store;
    nothing has been sent to the graph and [lastSyncTime] is as before.
    A run that returns has set [lastSyncTime] to the current time. *)
Theorem syncKnowledgeGraph_fatal (options : SyncOptions) (w : World) :
  let failed e :=
    initialize = Thrown e \/
    (initialize = Returned tt /\
     retrieveMemories EmptyString 100 = Thrown e) in
  (forall e, failed e -> syncKnowledgeGraph options w = (Thrown e, w)) /\
  (forall e w', syncKnowledgeGraph options w = (Thrown e, w') ->
     failed e /\ w' = w) /\
  (forall result w', syncKnowledgeGraph options w = (Returned result, w') ->
     w_lastSyncTime w' = w_clock w').
Proof.
  cbv zeta. unfold SyncService.syncKnowledgeGraph.
  destruct initialize as [[]|e0].
  - destruct (retrieveMemories EmptyString 100) as [memories|e1].
    + destruct (syncLoop _ _ memories _ w) as [result1 w1].
      split; [intros e [?|[_ ?]]; discriminate|]. split; [discriminate|].
      now intros result w' [= <- <-].
    + split; [intros e [?|[_ [= <-]]]; [discriminate|reflexivity]|].
      split; [|discriminate]. intros e w' [= <- <-]. auto.
  - split; [intros e [[= <-]|[? _]]; [reflexivity|discriminate]|].
    split; [|discriminate]. intros e w' [= <- <-]. auto.
Qed.

End FatalFacts.


(** **** The runner *)

Section RunnerFacts.
Variable generateText : string -> outcome string.
Variable JSON_parse : string -> outcome ParsedJson.
Variable initialize : outcome unit.
Variable retrieveMemories : string -> nat -> outcome (list Memory).
Variable connect : outcome unit.

Abbreviation main :=
  (main generateText JSON_parse initialize retrieveMemories connect).


(** X13.  Of its arguments the runner reads [--watch] only: two argument
    lists that agree on it give the same run, so [--full-resync] changes
    nothing. *)
Theorem main_reads_only_watch (args args' : list string) (w : World) :
  includes "--watch" args = includes "--watch" args' ->
  main args w = main args' w.
Proof.
  intros Hw. unfold SyncRunner.main, runSync. rewrite Hw.
  destruct connect; [|reflexivity].
  now rewrite (syncKnowledgeGraph_ignores_options _ _ _ _
                 {| forceFullResync := Some (includes "--full-resync" args) |}
                 {| forceFullResync := Some (includes "--full-resync" args') |}).
Qed.
End RunnerFacts.

Lemma main_reads_only_watch_witness :
  main fencedCompletion parseBraces (Returned tt) retrieveBoth (Returned tt)
    ["--full-resync"] freshWorld =
  main fencedCompletion parseBraces (Returned tt) retrieveBoth (Returned tt)
    [] freshWorld.
Proof. apply main_reads_only_watch. reflexivity. Defined.

End SyncRunnerFacts.

(** *** The MCP server: query_knowledge_graph *)

Module GraphQueryFacts.
Import McpServer GraphQuery Scenario Samples LlmServiceFacts McpToolsFacts
  CleaningFacts.

Section HandlerFacts.
Variable Params : Type.
Variable QueryRecord : Type.
Variable noParams : Params.
Variable connect : outcome unit.
Variable runQuery : string -> Params -> outcome (list QueryRecord).
Variable total_of : QueryRecord -> option Z.

Abbreviation query_knowledge_graph :=
  (query_knowledge_graph Params QueryRecord noParams connect runQuery total_of).
Abbreviation response_graph := (response_graph QueryRecord).

Lemma or_Z_default (x : option Z) :
  or_Z x (-1) <> 0%Z.
Proof.
  unfold or_Z. destruct x as [v|]; [|discriminate].
  destruct (Z.eqb v 0) eqn:E; [discriminate|]. now apply Z.eqb_neq in E.
Qed.


(** X15.  A [query_knowledge_graph] response is an error exactly when
    connecting or the page query fails, and then carries the message of
    the failure.  A failing count query is no error: the records are
    returned as they are, with the total unknown. *)
Theorem query_knowledge_graph_errors (a : GraphQueryArgs Params) :
  let page := or_nat (g_page a) 1 in
  let size := or_nat (g_limit a) 20 in
  let paginated := paginatedQuery (g_query a) ((page - 1) * size) size in
  let parameters := or_object (g_parameters a) noParams in
  let failed e :=
    connect = Thrown e \/
    (connect = Returned tt /\ runQuery paginated parameters = Thrown e) in
  (forall e, failed e ->
     query_knowledge_graph a =
       mkToolResponse
         (GraphQueryFailure
            {| er_error := "Failed to execute Cypher query";
               er_details := Some e |}) true) /\
  (tr_isError (query_knowledge_graph a) = true <-> exists e, failed e) /\
  (forall records,
     connect = Returned tt ->
     runQuery paginated parameters = Returned records ->
     exists s,
       query_knowledge_graph a = mkToolResponse (GraphQuerySuccess s) false /\
       gq_records s = records /\
       (forall q e, totalCountQuery (cleanQuery (g_query a)) = Some q ->
          runQuery q parameters = Thrown e ->
          gq_totalResults s = None)).
Proof.
  cbv zeta. unfold GraphQuery.query_knowledge_graph, bind.
  destruct connect as [[]|e0].
  - destruct (runQuery (paginatedQuery _ _ _) _) as [records|e1] eqn:Er.
    + split; [intros e [?|[_ ?]]; discriminate|].
      split; [split; [discriminate|intros [e [?|[_ ?]]]; discriminate]|].
      intros records' _ [= <-]. eexists. split; [reflexivity|].
      split; [reflexivity|]. intros q e Eq Hq.
      cbn [gq_totalResults]. rewrite Eq.
      unfold GraphQuery.count_total. rewrite Hq. reflexivity.
    + split; [intros e [?|[_ [= <-]]]; [discriminate|reflexivity]|].
      split; [split; [eauto|reflexivity]|]. discriminate.
  - split; [intros e [[= <-]|[? _]]; [reflexivity|discriminate]|].
    split; [split; [eauto|reflexivity]|]. discriminate.
Qed.
End HandlerFacts.


(** **** The count query *)

Lemma lazy_run_spec s : forall run,
  lazy_run s = Some run ->
  exists rest,
    s = run ++ rest /\ at_return rest = true /\
    (1 <= String.length run)%nat /\
    (forall k, (1 <= k < String.length run)%nat ->
       at_return (string_drop k s) = false) /\
    (forall k, (k < String.length run)%nat ->
       exists c, String.get k s = Some c /\ is_line_terminator c = false).
Proof.
  induction s as [|c tl IH]; intros run H; [discriminate|].
  cbn [lazy_run] in H.
  destruct (is_line_terminator c) eqn:Ec; [discriminate|].
  destruct (at_return tl) eqn:Er.
  - injection H as <-. exists tl. split; [reflexivity|]. split; [exact Er|].
    cbn [String.length]. split; [lia|]. split; [intros k Hk; lia|].
    intros k Hk. assert (k = 0)%nat as -> by lia. exists c. now split.
  - destruct (lazy_run tl) as [run'|]; [|discriminate]. injection H as <-.
    destruct (IH run' eq_refl) as (rest & Es & Hr & Hlen & Hmin & Hdot).
    exists rest. split; [rewrite Es at 1; reflexivity|]. split; [exact Hr|].
    cbn [String.length]. split; [lia|]. split.
    + intros [|[|k]] Hk; [lia|exact Er|].
      cbn [string_drop]. apply (Hmin (S k)). lia.
    + intros [|k] Hk; [exists c; now split|].
      cbn [String.get]. apply Hdot. lia.
Qed.

Lemma keyword_not_terminator (w c : ascii) :
  is_line_terminator w = false ->
  Ascii.eqb (to_upper w) (to_upper c) = true ->
  is_line_terminator c = false.
Proof.
  intros Hw E. destruct (is_line_terminator c) eqn:Ec; [|reflexivity].
  assert (Hc : to_upper c = c).
  { destruct c as [[] [] [] [] [] [] [] []]; try discriminate; reflexivity. }
  rewrite Hc in E. apply Ascii.eqb_eq in E. subst c.
  destruct w as [[] [] [] [] [] [] [] []]; try discriminate.
Qed.

(** X16.  When a count query is derived, it is the start of the cleaned
    query up to the first RETURN or ORDER BY found from its eighth
    character on: it starts with MATCH and a space, letter case apart, has
    at least seven characters, holds no line terminator, and is followed
    in the cleaned query by RETURN or ORDER BY.  So a query that breaks
    the line before its RETURN gets no count query. *)
Theorem countQuery_is_prefix (clean count : string) :
  countQuery clean = Some count ->
  exists rest,
    clean = count ++ rest /\ at_return rest = true /\
    starts_with_ci "MATCH " count = true /\
    (7 <= String.length count)%nat /\
    (forall k, (7 <= k < String.length count)%nat ->
       at_return (string_drop k clean) = false) /\
    (forall k, (k < String.length count)%nat ->
       exists c, String.get k clean = Some c /\ is_line_terminator c = false).
Proof.
  unfold countQuery.
  destruct (starts_with_ci "MATCH " clean) eqn:Em; [|discriminate].
  destruct clean as [|a1 [|a2 [|a3 [|a4 [|a5 [|a6 tl]]]]]];
    try (cbn in Em; rewrite ?andb_false_r in Em; discriminate).
  cbn [string_drop string_take].
  destruct (lazy_run tl) as [run|] eqn:El; [|discriminate].
  intros [= <-].
  destruct (lazy_run_spec tl run El) as (rest & Es & Hr & Hlen & Hmin & Hdot).
  exists rest. split; [rewrite Es at 1; reflexivity|]. split; [exact Hr|].
  split; [exact Em|].
  assert (El6 : String.length
            (String a1 (String a2 (String a3 (String a4 (String a5
               (String a6 EmptyString))))) ++ run) =
          (6 + String.length run)%nat) by (rewrite string_length_append; reflexivity).
  rewrite El6. split; [lia|]. split.
  - intros k Hk.
    destruct k as [|[|[|[|[|[|k]]]]]]; try lia.
    cbn [string_drop]. apply Hmin. lia.
  - cbn in Em. repeat (apply andb_true_iff in Em as [? Em]).
    intros k Hk.
    destruct k as [|[|[|[|[|[|k]]]]]]; cbn [String.get];
      try (eexists; split; [reflexivity|];
           eapply keyword_not_terminator; [|eassumption]; reflexivity).
    apply Hdot. lia.
Qed.

Lemma countQuery_is_prefix_witness :
  exists rest,
    allNodes = "MATCH (n) " ++ rest /\ at_return rest = true.
Proof.
  destruct (countQuery_is_prefix allNodes "MATCH (n) " eq_refl)
    as (rest & Hsplit & Hreturn & _).
  exists rest. split; [exact Hsplit|exact Hreturn].
Defined.

(** **** Removing and adding SKIP and LIMIT *)

Lemma remove_clauses_skip k : forall s,
  remove_clauses k s = remove_clauses 0 (string_drop k s).
Proof.
  induction k as [|k IH]; intros s; [now destruct s|].
  destruct s as [|c rest]; [reflexivity|]. cbn [remove_clauses string_drop].
  apply IH.
Qed.

Lemma remove_clauses_none c rest :
  match_clause (String c rest) = None ->
  remove_clauses 0 (String c rest) = String c (remove_clauses 0 rest).
Proof. intros H. cbn [remove_clauses]. now rewrite H. Qed.

Lemma match_clause_pos s n : match_clause s = Some n -> (1 <= n)%nat.
Proof.
  unfold match_clause. destruct (span_length is_space s); [discriminate|].
  destruct (keyword_length _); [|discriminate].
  destruct (span_length is_space _); [discriminate|].
  destruct (span_length is_digit _); [discriminate|].
  intros [= <-]. lia.
Qed.

Lemma remove_clauses_some s n :
  match_clause s = Some n ->
  remove_clauses 0 s = remove_clauses 0 (string_drop n s).
Proof.
  intros H. pose proof (match_clause_pos _ _ H) as Hn.
  destruct s as [|c rest]; [discriminate|].
  cbn [remove_clauses]. rewrite H, remove_clauses_skip.
  destruct n as [|n]; [lia|]. cbn [string_drop].
  now replace (S n - 1)%nat with n by lia.
Qed.

Lemma remove_clauses_clause_free s :
  has_clause s = false -> remove_clauses 0 s = s.
Proof.
  induction s as [|c rest IH]; [reflexivity|]. cbn [has_clause].
  intros [Hm Hr]%orb_false_iff.
  rewrite remove_clauses_none, IH; [reflexivity|exact Hr|].
  now destruct (match_clause (String c rest)).
Qed.

Lemma span_length_le p s : (span_length p s <= String.length s)%nat.
Proof.
  induction s as [|c rest IH]; [reflexivity|]. cbn [span_length String.length].
  destruct (p c); lia.
Qed.

Lemma span_length_app p u c t :
  p c = false -> span_length p (u ++ String c t) = span_length p u.
Proof.
  intros Hc. induction u as [|a u IH].
  { change (EmptyString ++ String c t) with (String c t).
    cbn [span_length]. now rewrite Hc. }
  change (String a u ++ String c t) with (String a (u ++ String c t)).
  cbn [span_length]. now rewrite IH.
Qed.

Lemma span_length_app_lt p u t :
  (span_length p u < String.length u)%nat ->
  span_length p (u ++ t) = span_length p u.
Proof.
  induction u as [|a u IH]; cbn [span_length String.length]; [lia|].
  change (String a u ++ t) with (String a (u ++ t)). cbn [span_length].
  destruct (p a); [|reflexivity]. intros H. rewrite IH; [reflexivity|lia].
Qed.

Lemma span_length_app_all p u t :
  span_length p u = String.length u ->
  span_length p (u ++ t) = (String.length u + span_length p t)%nat.
Proof.
  induction u as [|a u IH]; [reflexivity|].
  change (String a u ++ t) with (String a (u ++ t)).
  cbn [span_length String.length]. destruct (p a); [|discriminate].
  intros [= H]. now rewrite IH.
Qed.

Lemma string_drop_app n : forall u t,
  (n <= String.length u)%nat -> string_drop n (u ++ t) = string_drop n u ++ t.
Proof.
  induction n as [|n IH]; intros u t H.
  - destruct u; destruct t; reflexivity.
  - destruct u as [|a u]; [cbn in H; lia|].
    change (String a u ++ t) with (String a (u ++ t)). cbn [string_drop].
    apply IH. cbn in H. lia.
Qed.

Lemma string_drop_all n : forall u,
  (String.length u <= n)%nat -> string_drop n u = EmptyString.
Proof.
  induction n as [|n IH]; intros [|a u] H; try reflexivity.
  - cbn in H. lia.
  - cbn [string_drop]. apply IH. cbn in H. lia.
Qed.

Lemma string_drop_length_app u t : string_drop (String.length u) (u ++ t) = t.
Proof.
  induction u as [|a u IH]; [now destruct t|]. exact IH.
Qed.

Lemma ends_black_cons c rest :
  rest <> EmptyString -> ends_black (String c rest) = ends_black rest.
Proof. destruct rest; [contradiction|reflexivity]. Qed.

Lemma ends_black_span u :
  ends_black u = true -> (span_length is_space u < String.length u)%nat.
Proof.
  induction u as [|c rest IH]; [discriminate|].
  cbn [span_length String.length]. destruct rest as [|d rest'].
  - cbn [ends_black]. intros H%negb_true_iff. rewrite H. lia.
  - rewrite ends_black_cons by discriminate. intros H. specialize (IH H).
    destruct (is_space c); lia.
Qed.

Lemma ends_black_drop n : forall u,
  ends_black u = true -> (n < String.length u)%nat ->
  ends_black (string_drop n u) = true.
Proof.
  induction n as [|n IH]; intros u H Hn; [now destruct u|].
  destruct u as [|c rest]; [discriminate|].
  cbn [string_drop]. destruct rest as [|d rest']; [cbn in Hn; lia|].
  rewrite ends_black_cons in H by discriminate.
  apply IH; [exact H|]. cbn [String.length] in *. lia.
Qed.

Ltac push_append :=
  repeat match goal with
         | |- context [String ?a ?u ++ ?t] =>
             change (String a u ++ t) with (String a (u ++ t))
         | |- context [EmptyString ++ ?t] =>
             change (EmptyString ++ t) with t
         end.

Ltac space_is_no_letter :=
  repeat match goal with
         | |- context [Ascii.eqb (to_upper ?w) (to_upper " ")] =>
             change (Ascii.eqb (to_upper w) (to_upper " ")) with false
         end.

Lemma keyword_length_app u t :
  keyword_length (u ++ String " " t) = keyword_length u.
Proof.
  unfold keyword_length.
  destruct u as [|a [|b [|c [|d [|e u]]]]]; push_append;
    cbn [starts_with_ci]; space_is_no_letter;
    rewrite ?andb_false_r; reflexivity.
Qed.

Lemma keyword_length_le u n :
  keyword_length u = Some n -> (n <= String.length u)%nat.
Proof.
  unfold keyword_length.
  destruct u as [|a [|b [|c [|d [|e u]]]]]; cbn [starts_with_ci String.length];
    rewrite ?andb_false_r; try discriminate;
    repeat match goal with
           | |- context [if ?b then _ else _] => destruct b
           end; try discriminate; intros [= <-]; lia.
Qed.

Lemma match_clause_app u t :
  ends_black u = true -> opens_clause t = true ->
  match_clause (u ++ t) = match_clause u.
Proof.
  intros Hu Ht.
  destruct t as [|s [|x t']]; try discriminate. cbn [opens_clause] in Ht.
  apply andb_true_iff in Ht as [[Hs Hx]%andb_true_iff Hd].
  apply Ascii.eqb_eq in Hs. subst s.
  apply negb_true_iff in Hx, Hd.
  set (t := String " " (String x t')).
  unfold match_clause.
  pose proof (ends_black_span u Hu) as H1.
  rewrite (span_length_app_lt is_space u t H1).
  destruct (span_length is_space u) as [|k1] eqn:E1; [reflexivity|].
  rewrite string_drop_app by lia.
  pose proof (ends_black_drop (S k1) u Hu ltac:(lia)) as Hu1.
  set (u1 := string_drop (S k1) u) in *.
  unfold t at 1. rewrite keyword_length_app. fold t.
  destruct (keyword_length u1) as [n2|] eqn:E2; [|reflexivity].
  pose proof (keyword_length_le u1 n2 E2) as Hn2.
  rewrite string_drop_app by exact Hn2.
  destruct (Nat.eq_dec n2 (String.length u1)) as [->|Hne].
  - rewrite (string_drop_all _ u1 (le_n _)).
    change (EmptyString ++ t) with t. unfold t.
    cbn [span_length]. change (is_space " ") with true. cbv iota.
    rewrite Hx. cbn [string_drop span_length]. now rewrite Hd.
  - pose proof (ends_black_drop n2 u1 Hu1 ltac:(lia)) as Hu2.
    set (u2 := string_drop n2 u1) in *.
    pose proof (ends_black_span u2 Hu2) as H3.
    rewrite (span_length_app_lt is_space u2 t H3).
    destruct (span_length is_space u2) as [|k3] eqn:E3; [reflexivity|].
    rewrite string_drop_app by lia.
    unfold t. rewrite span_length_app by reflexivity. reflexivity.
Qed.

Lemma remove_clauses_app u t :
  has_clause u = false -> ends_black u = true -> opens_clause t = true ->
  remove_clauses 0 (u ++ t) = u ++ remove_clauses 0 t.
Proof.
  intros Hc Hu Ht. induction u as [|c rest IH]; [discriminate|].
  cbn [has_clause] in Hc. apply orb_false_iff in Hc as [Hm Hr].
  assert (Hn : match_clause (String c rest) = None)
    by now destruct (match_clause (String c rest)).
  rewrite <- (match_clause_app _ t Hu Ht) in Hn.
  change (String c rest ++ t) with (String c (rest ++ t)) in *.
  rewrite (remove_clauses_none _ _ Hn).
  destruct rest as [|d rest']; [reflexivity|].
  rewrite ends_black_cons in Hu by discriminate.
  now rewrite IH.
Qed.

Lemma digit_not_space c : is_digit c = true -> is_space c = false.
Proof. destruct c as [[] [] [] [] [] [] [] []]; try discriminate; reflexivity. Qed.

Lemma decimal_digits_aux u :
  span_length is_digit (NilEmpty.string_of_uint u) =
  String.length (NilEmpty.string_of_uint u).
Proof.
  induction u; cbn [NilEmpty.string_of_uint span_length String.length];
    [reflexivity|..];
    match goal with
    | |- context [is_digit ?c] => change (is_digit c) with true
    end; cbv iota; now rewrite IHu.
Qed.

Lemma decimal_digits n :
  decimal n <> EmptyString /\
  span_length is_digit (decimal n) = String.length (decimal n).
Proof.
  unfold decimal, NilZero.string_of_uint.
  destruct (Nat.to_uint n) eqn:E; [split; [discriminate|reflexivity]|..];
    (split; [discriminate|apply decimal_digits_aux]).
Qed.

Lemma match_clause_literal kw ds rest :
  kw = "SKIP" \/ kw = "LIMIT" ->
  ds <> EmptyString ->
  span_length is_digit ds = String.length ds ->
  span_length is_digit rest = 0%nat ->
  match_clause (" " ++ kw ++ " " ++ ds ++ rest) =
    Some (2 + String.length kw + String.length ds)%nat.
Proof.
  intros Hkw Hne Hds Hrest.
  destruct ds as [|c ds']; [contradiction|].
  assert (Hc : is_digit c = true).
  { cbn [span_length String.length] in Hds. now destruct (is_digit c). }
  pose proof (digit_not_space c Hc) as Hsp.
  pose proof (span_length_app_all is_digit _ rest Hds) as E4.
  rewrite Hrest, Nat.add_0_r in E4.
  set (ds := String c ds') in *.
  assert (E3 : span_length is_space (String " " (ds ++ rest)) = 1%nat).
  { unfold ds. change (String c ds' ++ rest) with (String c (ds' ++ rest)).
    cbn [span_length]. change (is_space " ") with true. cbv iota.
    now rewrite Hsp. }
  unfold match_clause.
  destruct Hkw as [-> | ->].
  - change (span_length is_space (" " ++ "SKIP" ++ " " ++ ds ++ rest))
      with 1%nat. cbv iota.
    change (keyword_length (string_drop 1 (" " ++ "SKIP" ++ " " ++ ds ++ rest)))
      with (Some 4%nat). cbv iota.
    change (string_drop 4 (string_drop 1 (" " ++ "SKIP" ++ " " ++ ds ++ rest)))
      with (String " " (ds ++ rest)).
    rewrite E3. change (string_drop 1 (String " " (ds ++ rest))) with (ds ++ rest).
    rewrite E4. unfold ds. cbn [String.length]. f_equal.
  - change (span_length is_space (" " ++ "LIMIT" ++ " " ++ ds ++ rest))
      with 1%nat. cbv iota.
    change (keyword_length (string_drop 1 (" " ++ "LIMIT" ++ " " ++ ds ++ rest)))
      with (Some 5%nat). cbv iota.
    change (string_drop 5 (string_drop 1 (" " ++ "LIMIT" ++ " " ++ ds ++ rest)))
      with (String " " (ds ++ rest)).
    rewrite E3. change (string_drop 1 (String " " (ds ++ rest))) with (ds ++ rest).
    rewrite E4. unfold ds. cbn [String.length]. f_equal.
Qed.

Lemma remove_clauses_literal kw ds rest :
  kw = "SKIP" \/ kw = "LIMIT" ->
  ds <> EmptyString ->
  span_length is_digit ds = String.length ds ->
  span_length is_digit rest = 0%nat ->
  remove_clauses 0 (" " ++ kw ++ " " ++ ds ++ rest) = remove_clauses 0 rest.
Proof.
  intros Hkw Hne Hds Hrest.
  rewrite (remove_clauses_some _ _ (match_clause_literal kw ds rest Hkw Hne Hds Hrest)).
  f_equal. destruct Hkw as [-> | ->].
  - exact (string_drop_length_app (" " ++ "SKIP" ++ " " ++ ds) rest).
  - exact (string_drop_length_app (" " ++ "LIMIT" ++ " " ++ ds) rest).
Qed.

Lemma trimStart_fixed s :
  String.length (trimStart s) = String.length s -> trimStart s = s.
Proof.
  destruct s as [|c rest]; [reflexivity|]. cbn [trimStart].
  destruct (is_space c); [|reflexivity].
  pose proof (trimStart_length rest). cbn [String.length]. lia.
Qed.

Lemma trim_fixed s : trim s = s -> trimStart s = s /\ trimEnd s = s.
Proof.
  intros H. assert (Hs : trimStart s = s).
  { apply trimStart_fixed. pose proof (trimStart_length s).
    pose proof (trimEnd_length (trimStart s)). unfold trim in H.
    rewrite H in *. lia. }
  split; [exact Hs|]. unfold trim in H. now rewrite Hs in H.
Qed.

Lemma trimEnd_fixed_ends_black u :
  trimEnd u = u -> u <> EmptyString -> ends_black u = true.
Proof.
  induction u as [|c rest IH]; [contradiction|]. intros H _.
  destruct rest as [|d rest'].
  - cbn in H. cbn [ends_black]. destruct (is_space c); [discriminate|reflexivity].
  - rewrite ends_black_cons by discriminate. apply IH; [|discriminate].
    change (trimEnd (String c (String d rest')))
      with (match trimEnd (String d rest') with
            | EmptyString => if is_space c then EmptyString else String c EmptyString
            | kept => String c kept
            end) in H.
    destruct (trimEnd (String d rest')) as [|k kept].
    + destruct (is_space c); discriminate.
    + injection H as -> ->. reflexivity.
Qed.

Lemma trimEnd_digits ds :
  span_length is_digit ds = String.length ds -> trimEnd ds = ds.
Proof.
  induction ds as [|c rest IH]; [reflexivity|].
  cbn [span_length String.length]. destruct (is_digit c) eqn:Hc; [|discriminate].
  intros [= H]. cbn [trimEnd]. rewrite (IH H).
  destruct rest; [|reflexivity]. now rewrite (digit_not_space c Hc).
Qed.

Lemma cleanQuery_literal base kw ds :
  trim base = base -> base <> EmptyString -> has_clause base = false ->
  kw = "SKIP" \/ kw = "LIMIT" ->
  ds <> EmptyString -> span_length is_digit ds = String.length ds ->
  forall rest,
    remove_clauses 0 rest = EmptyString ->
    trimEnd rest = rest ->
    span_length is_digit rest = 0%nat ->
    cleanQuery (base ++ " " ++ kw ++ " " ++ ds ++ rest) = base.
Proof.
  intros Ht Hne Hc Hkw Hds1 Hds2 rest Hrest Hend Hnd.
  destruct (trim_fixed base Ht) as [Hs He].
  pose proof (trimEnd_fixed_ends_black base He Hne) as Hb.
  unfold cleanQuery.
  assert (Etrim : trim (base ++ " " ++ kw ++ " " ++ ds ++ rest) =
                  base ++ " " ++ kw ++ " " ++ ds ++ rest).
  { unfold trim.
    assert (E : trimStart (base ++ " " ++ kw ++ " " ++ ds ++ rest) =
                base ++ " " ++ kw ++ " " ++ ds ++ rest).
    { pose proof (trimStart_starts base) as Hst. rewrite Hs in Hst.
      destruct base as [|c b]; [contradiction|].
      change (String c b ++ " " ++ kw ++ " " ++ ds ++ rest)
        with (String c (b ++ " " ++ kw ++ " " ++ ds ++ rest)).
      cbn [trimStart]. now rewrite Hst. }
    rewrite E.
    apply trimEnd_kept; [|destruct Hkw as [-> | ->]; discriminate].
    apply (trimEnd_kept " "); [|destruct Hkw as [-> | ->]; discriminate].
    apply trimEnd_kept; [|discriminate].
    apply (trimEnd_kept " ").
    - destruct rest as [|r rest'].
      + rewrite string_append_empty. now apply trimEnd_digits.
      + apply trimEnd_kept; [exact Hend|discriminate].
    - intros E'. destruct ds; [contradiction|discriminate]. }
  rewrite Etrim.
  rewrite remove_clauses_app; [|exact Hc|exact Hb|now destruct Hkw as [-> | ->]].
  rewrite (remove_clauses_literal kw ds rest Hkw Hds1 Hds2 Hnd), Hrest.
  apply string_append_empty.
Qed.

Lemma limit_clause_removed ds :
  ds <> EmptyString -> span_length is_digit ds = String.length ds ->
  remove_clauses 0 (" LIMIT " ++ ds) = EmptyString /\
  trimEnd (" LIMIT " ++ ds) = " LIMIT " ++ ds.
Proof.
  intros Hne Hds. split.
  - pose proof (remove_clauses_literal "LIMIT" ds EmptyString
                  (or_intror eq_refl) Hne Hds eq_refl) as H.
    rewrite string_append_empty in H. exact H.
  - apply trimEnd_kept; [now apply trimEnd_digits|exact Hne].
Qed.



End GraphQueryFacts.
